(** * snputils: the PGEN writer ([snputils/snp/io/write/pgen.py])

    A shallow embedding of [PGENWriter] and of the parts of the Python
    libraries it drives (pathlib, numpy, polars, zstandard, pgenlib), with
    the properties of the writer stated over the calls it issues.

    Python [str] values are modelled as Rocq strings holding their UTF-8
    bytes.  Every string operation the writer performs (concatenation,
    search for ['.'], split on ['/'], comparison with ASCII literals) acts
    the same on code points and on UTF-8 bytes, because no ASCII byte occurs
    inside a multi-byte UTF-8 sequence.

    The arrays of the genotype object are typed as numpy types them: the
    call data is an integer array of a fixed width, each metadata column
    holds values of one kind, and the ALT alleles are an array of strings.
    An array handed to the binary writer is recorded with its shape. *)

From Stdlib Require Import ZArith Lia Ascii String DecimalString.
From stdpp Require Import base list strings.

Local Open Scope string_scope.
Local Open Scope list_scope.

(** ** Python string primitives *)

Module PyStr.

(** [s[n:]] *)
Fixpoint drop (n : nat) (s : string) : string :=
  match n, s with
  | O, _ => s
  | S _, EmptyString => EmptyString
  | S n', String _ s' => drop n' s'
  end.

(** [s[:n]] *)
Fixpoint take (n : nat) (s : string) : string :=
  match n, s with
  | O, _ => EmptyString
  | S _, EmptyString => EmptyString
  | S n', String c s' => String c (take n' s')
  end.

(** [s.rfind(c)], with [None] for Python's [-1]. *)
Fixpoint rfind (c : ascii) (s : string) : option nat :=
  match s with
  | EmptyString => None
  | String a s' =>
      match rfind c s' with
      | Some i => Some (S i)
      | None => if Ascii.eqb a c then Some 0 else None
      end
  end.

(** [s.split(sep)] for a one-character separator: never the empty list. *)
Fixpoint split (sep : ascii) (s : string) : list string :=
  match s with
  | EmptyString => [EmptyString]
  | String a s' =>
      if Ascii.eqb a sep then EmptyString :: split sep s'
      else match split sep s' with
           | [] => [String a EmptyString]
           | w :: ws => String a w :: ws
           end
  end.

(** [s.lstrip(c)] *)
Fixpoint lstrip (c : ascii) (s : string) : string :=
  match s with
  | EmptyString => EmptyString
  | String a s' => if Ascii.eqb a c then lstrip c s' else s
  end.

(** [sep.join(ws)] *)
Fixpoint join (sep : string) (ws : list string) : string :=
  match ws with
  | [] => EmptyString
  | [w] => w
  | w :: ws' => w +:+ sep +:+ join sep ws'
  end.

(** [c in s] *)
Fixpoint contains (c : ascii) (s : string) : bool :=
  match s with
  | EmptyString => false
  | String a s' => Ascii.eqb a c || contains c s'
  end.

(** [x in xs] for a tuple of strings. *)
Definition mem (x : string) (xs : list string) : bool :=
  existsb (String.eqb x) xs.

End PyStr.

(** ** pathlib: pure POSIX paths

    [Path(filename)] on a POSIX system, as parsed by pathlib's
    [parse_parts] and [splitroot]: a root (the empty string, ["/"] or
    ["//"]) and the components that are neither empty nor ["."].  The
    [suffix] property is the classic one: the part of the final component
    from its last dot, provided that dot is neither its first nor its last
    character. *)

Module PosixPath.

Record Path : Type := mkPath { root : string; parts : list string }.

Definition splitroot (part : string) : string * string :=
  match part with
  | String "/" _ =>
      let stripped := PyStr.lstrip "/" part in
      if Nat.eqb (String.length part - String.length stripped) 2
      then ("//", stripped) else ("/", stripped)
  | _ => (EmptyString, part)
  end.

Definition keep_component (x : string) : bool :=
  negb (String.eqb x EmptyString) && negb (String.eqb x ".").

(** [Path(s)] *)
Definition of_string (s : string) : Path :=
  let '(r, rel) := splitroot s in
  mkPath r (List.filter keep_component (PyStr.split "/" rel)).

(** [str(p)] *)
Definition to_string (p : Path) : string :=
  let s := root p +:+ PyStr.join "/" (parts p) in
  if String.eqb s EmptyString then "." else s.

(** [p.name] *)
Definition name (p : Path) : string := List.last (parts p) EmptyString.

Definition name_suffix (nm : string) : string :=
  match PyStr.rfind "." nm with
  | Some i =>
      if Nat.ltb 0 i && Nat.ltb i (String.length nm - 1)
      then PyStr.drop i nm else EmptyString
  | None => EmptyString
  end.

(** [p.suffix] *)
Definition suffix (p : Path) : string := name_suffix (name p).

(** [p.with_suffix('')]; [None] stands for the [ValueError] raised on a
    path with an empty name. *)
Definition with_suffix_empty (p : Path) : option Path :=
  let nm := name p in
  if String.eqb nm EmptyString then None
  else
    let old := suffix p in
    let nm' := PyStr.take (String.length nm - String.length old) nm in
    Some (mkPath (root p) (List.removelast (parts p) ++ [nm'])).

End PosixPath.

Import PosixPath.

(** ** numpy arrays

    An [ndarray] is its shape and its elements in row-major (C) order, the
    layout [reshape] and indexing along the first axis preserve. *)

Record ndarray (A : Type) : Type := mk_ndarray { shape : list nat; data : list A }.
Arguments mk_ndarray {A} _ _.
Arguments shape {A} _.
Arguments data {A} _.

Inductive exn : Type :=
| ValueError                 (* tuple unpacking of the wrong arity, bad reshape, empty path name *)
| IndexError                 (* numpy index out of bounds or too many indices *)
| ShapeError                 (* polars: columns of different heights, or not one-dimensional *)
| OSError                    (* file system *)
| InvalidDimensionError      (* encoder error taxonomy *)
| RowShapeMismatchError
| UnsupportedGenotypeError
| IncompleteWriteError
| IOFailureError.

Definition result (A : Type) : Type := exn + A.

Module Np.

(** [a.size] *)
Definition size_of (sh : list nat) : nat := foldr Nat.mul 1 sh.

Definition ndim {A} (a : ndarray A) : nat := length (shape a).

(** The arrays numpy can build: as many elements as the shape says. *)
Definition wf {A} (a : ndarray A) : Prop := length (data a) = size_of (shape a).

(** The elements of an integer array of a fixed width of at most 64 bits,
    the kind of array the call data is: an integer that does not fit cannot
    be held by such an array. *)
Definition in_int64 (z : Z) : bool := ((- 2 ^ 63 <=? z) && (z <? 2 ^ 63))%Z.

Record int64 : Type := mk_int64 { to_Z : Z; int64_ok : in_int64 to_Z = true }.

(** The elements of an integer array, as integers. *)
Definition values (a : ndarray int64) : list Z := map to_Z (data a).

(** [a.reshape(v, w)], with [sh = [v; w]] *)
Definition reshape {A} (a : ndarray A) (sh : list nat) : result (ndarray A) :=
  if Nat.eqb (size_of sh) (size_of (shape a))
  then inr (mk_ndarray sh (data a)) else inl ValueError.

(** [a[i]] for a non-negative [i]: the [i]-th sub-array along axis 0. *)
Definition getitem {A} (a : ndarray A) (i : nat) : result (ndarray A) :=
  match shape a with
  | [] => inl IndexError
  | n :: sh =>
      if Nat.ltb i n
      then inr (mk_ndarray sh (take (size_of sh) (drop (i * size_of sh) (data a))))
      else inl IndexError
  end.

(** [a[:, 0]]: index 0 along the second axis, for every index along the
    first.  numpy raises [IndexError] when there is no second axis or when
    it is empty; otherwise the result has the shape of [a] without its
    second axis. *)
Definition column0 {A} (a : ndarray A) : result (ndarray A) :=
  match shape a with
  | n :: k :: rest =>
      if Nat.eqb k 0 then inl IndexError
      else inr (mk_ndarray (n :: rest)
                  (concat (map (fun i => take (size_of rest)
                                              (drop (i * (k * size_of rest)) (data a)))
                               (seq 0 n))))
  | _ => inl IndexError
  end.

(** Conversion of one integer to [np.int32]: two's-complement wrap-around. *)
Definition wrap32 (z : Z) : Z := ((z + 2 ^ 31) mod 2 ^ 32 - 2 ^ 31)%Z.

(** [a.astype(np.int32)] on an integer array of fixed width: every element
    is cast as C does. *)
Definition astype_int32 (a : ndarray int64) : ndarray Z :=
  mk_ndarray (shape a) (map (fun x => wrap32 (to_Z x)) (data a)).

End Np.

(** ** The genotype object and the writer object *)

(** One value of a column, as the data frame holds it. *)
Inductive pyval : Type :=
| PStr (s : string)
| PInt (z : Z)
| PBool (b : bool)
| PNone.

(** A one-dimensional metadata array: all its values are of one kind,
    strings, integers of a fixed width or booleans. *)
Inductive series : Type :=
| StrArray (vs : list string)
| IntArray (vs : list Np.int64)
| BoolArray (vs : list bool).

Definition cells (s : series) : list pyval :=
  match s with
  | StrArray vs => map PStr vs
  | IntArray vs => map (fun x => PInt (Np.to_Z x)) vs
  | BoolArray vs => map PBool vs
  end.

Coercion cells : series >-> list.

Record SNPObject : Type := mkSNPObject {
  calldata_gt : ndarray Np.int64;
  samples : series;
  variants_chrom : series;
  variants_pos : series;
  variants_id : series;
  variants_ref : series;
  variants_alt : ndarray string;
  variants_filter_pass : series;
}.

Record PGENWriter : Type := mkPGENWriter {
  snpobj : SNPObject;
  filename : Path;
  file_extension : option string;
}.

(** [PGENWriter.__init__] *)
Definition init (obj : SNPObject) (fname : string) : PGENWriter :=
  mkPGENWriter obj (of_string fname) None.

(** ** Calls into the outside world

    One event per call the writer makes to the logging module, the file
    system or pgenlib; the trace records each call with the exception it
    raised, if any. *)

Inductive event : Type :=
| EvLog (msg : string)                                   (* log.info(msg) *)
| EvWriteText (path : string) (text : string)            (* text written to a file opened for writing *)
| EvWriteBytes (path : string) (bytes : list Byte.byte)  (* bytes written to a file opened 'wb' *)
| EvPgenOpen (fname : list Byte.byte) (sample_ct variant_ct : nat)
             (hardcall_phase_present : bool)             (* pg.PgenWriter(...) and __enter__ *)
| EvPgenAppend (allele_int32 : ndarray Z) (all_phased : bool)  (* writer.append_alleles(...) *)
| EvPgenClose.                                           (* writer.__exit__, which closes *)

Definition call_record : Type := event * option exn.

(** What the writer cannot decide itself: whether a call raises, given all
    calls made so far, and the zstd compressor. *)
Record World : Type := mkWorld {
  raises : list call_record -> event -> option exn;
  zstd_compress : list Byte.byte -> list Byte.byte;
}.

Record state : Type := mkState { self : PGENWriter; trace : list call_record }.

(** ** The monad of the writer's methods: state and exceptions *)

Definition M (A : Type) : Type := state -> state * result A.

Global Instance M_ret : MRet M := fun A (a : A) st => (st, inr a).
Global Instance M_bind : MBind M := fun A B (f : A -> M B) (m : M A) st =>
  match m st with
  | (st', inl e) => (st', inl e)
  | (st', inr a) => f a st'
  end.

Definition raise {A} (e : exn) : M A := fun st => (st, inl e).

Definition lift {A} (r : result A) : M A := fun st => (st, r).

Definition get_self : M PGENWriter := fun st => (st, inr (self st)).

Definition set_filename (p : Path) : M unit := fun st =>
  (mkState (mkPGENWriter (snpobj (self st)) p (file_extension (self st))) (trace st), inr tt).

Definition set_file_extension (x : string) : M unit := fun st =>
  (mkState (mkPGENWriter (snpobj (self st)) (filename (self st)) (Some x)) (trace st), inr tt).

(** Logging never raises. *)
Definition log_info (msg : string) : M unit := fun st =>
  (mkState (self st) (trace st ++ [(EvLog msg, None)]), inr tt).

Fixpoint for_each {A} (xs : list A) (body : A -> M unit) : M unit :=
  match xs with
  | [] => mret tt
  | x :: xs' => body x ;; for_each xs' body
  end.

(** ** polars: data frames built from a dict, and their CSV form *)

Module Polars.

Definition newline : string := String (ascii_of_nat 10) EmptyString.
Definition quote : ascii := ascii_of_nat 34.

Inductive column_data : Type :=
| Values (s : series)            (* a one-dimensional array: one value per row *)
| Array (a : ndarray string)     (* an array of strings of any rank *)
| Scalar (v : pyval).            (* a scalar, broadcast to the frame's height *)

Record DataFrame : Type := mkDataFrame {
  columns : list (string * list pyval);
  height : nat;
}.

Definition one_dimensional (c : column_data) : bool :=
  match c with
  | Array a => Nat.eqb (Np.ndim a) 1
  | _ => true
  end.

Definition column_length (c : column_data) : option nat :=
  match c with
  | Values s => Some (length (cells s))
  | Array a => Some (hd 0 (shape a))
  | Scalar _ => None
  end.

Definition array_lengths (d : list (string * column_data)) : list nat :=
  omap (fun c => column_length c.2) d.

Definition column_cells (h : nat) (c : column_data) : list pyval :=
  match c with
  | Values s => cells s
  | Array a => map PStr (data a)
  | Scalar v => replicate h v
  end.

(** [pl.DataFrame(d)]: every array must have one dimension and the arrays
    must agree on their length, which is the height of the frame; a frame of
    scalars only has one row. *)
Definition of_dict (d : list (string * column_data)) : result DataFrame :=
  let lens := array_lengths d in
  let h := match lens with [] => 1 | _ => foldr Nat.max 0 lens end in
  if forallb (fun c => one_dimensional c.2) d && forallb (Nat.eqb h) lens
  then inr (mkDataFrame (map (fun c => (c.1, column_cells h c.2)) d) h)
  else inl ShapeError.

(** Quoting as [quote_style='necessary'] does it: a string is quoted when
    it is empty or holds the separator, a quote or a line break, and quotes
    inside it are doubled. *)
Fixpoint double_quotes (s : string) : string :=
  match s with
  | EmptyString => EmptyString
  | String a s' =>
      if Ascii.eqb a quote then String quote (String quote (double_quotes s'))
      else String a (double_quotes s')
  end.

Definition needs_quoting (sep : ascii) (s : string) : bool :=
  String.eqb s EmptyString || PyStr.contains sep s || PyStr.contains quote s
  || PyStr.contains (ascii_of_nat 10) s || PyStr.contains (ascii_of_nat 13) s.

Definition csv_string (sep : ascii) (s : string) : string :=
  if needs_quoting sep s
  then String quote (double_quotes s) +:+ String quote EmptyString
  else s.

(** One field of a row; a null is written as the empty field. *)
Definition csv_field (sep : ascii) (v : pyval) : string :=
  match v with
  | PStr s => csv_string sep s
  | PInt z => NilZero.string_of_int (Z.to_int z)
  | PBool true => "true"
  | PBool false => "false"
  | PNone => EmptyString
  end.

Definition line (sep : ascii) (fields : list string) : string :=
  PyStr.join (String sep EmptyString) fields +:+ newline.

Fixpoint cat (ls : list string) : string :=
  match ls with
  | [] => EmptyString
  | l :: ls' => l +:+ cat ls'
  end.

Definition row (sep : ascii) (df : DataFrame) (i : nat) : list string :=
  map (fun c => csv_field sep (default PNone (c.2 !! i))) (columns df).

(** [df.write_csv(None, separator=sep)]: a header line, then one line per row. *)
Definition write_csv (df : DataFrame) (sep : ascii) : string :=
  line sep (map (fun c => csv_string sep c.1) (columns df))
  +:+ cat (map (fun i => line sep (row sep df i)) (seq 0 (height df))).

End Polars.

Definition tab : ascii := ascii_of_nat 9.

(** [s.encode('utf-8')] *)
Definition encode_utf8 (s : string) : list Byte.byte := list_byte_of_string s.

Section Writer.

Context (W : World).

(** A call into the world: recorded, then raised or returned. *)
Definition call (ev : event) : M unit := fun st =>
  let o := raises W (trace st) ev in
  (mkState (self st) (trace st ++ [(ev, o)]),
   match o with Some e => inl e | None => inr tt end).

(** [with pg.PgenWriter(...) as writer: body]: the writer is closed when
    the body is left, normally or by an exception, and an exception of the
    close replaces the one of the body. *)
Definition closing (body : M unit) : M unit := fun st =>
  let '(st1, r) := body st in
  let '(st2, rc) := call EvPgenClose st1 in
  (st2, match rc with inl e => inl e | inr _ => r end).

Definition with_writer (opening : event) (body : M unit) : M unit :=
  call opening ;; closing body.

Definition file_extensions : list string := [".pgen"; ".psam"; ".pvar"; ".pvar.zst"].

(** [PGENWriter.write_pvar] *)
Definition write_pvar (vzs : bool) : M unit :=
  s ← get_self;
  let output_filename := to_string (filename s) +:+ ".pvar" in
  let output_filename := if vzs then output_filename +:+ ".zst" else output_filename in
  log_info (if vzs then "Writing to " +:+ output_filename +:+ " (compressed)"
            else "Writing to " +:+ output_filename) ;;
  alt ← lift (Np.column0 (variants_alt (snpobj s)));
  df ← lift (Polars.of_dict
               [("#CHROM", Polars.Values (variants_chrom (snpobj s)));
                ("POS", Polars.Values (variants_pos (snpobj s)));
                ("ID", Polars.Values (variants_id (snpobj s)));
                ("REF", Polars.Values (variants_ref (snpobj s)));
                ("ALT", Polars.Array alt);
                ("FILTER", Polars.Values (variants_filter_pass (snpobj s)))]);
  let csv_data := Polars.write_csv df tab in
  if vzs
  then call (EvWriteBytes output_filename (zstd_compress W (encode_utf8 csv_data)))
  else call (EvWriteText output_filename csv_data).

(** [PGENWriter.write_psam] *)
Definition write_psam : M unit :=
  s ← get_self;
  log_info ("Writing " +:+ to_string (filename s) +:+ ".psam") ;;
  df ← lift (Polars.of_dict
               [("IID", Polars.Values (samples (snpobj s)));
                ("SEX", Polars.Scalar (PStr "NA"))]);
  call (EvWriteText (to_string (filename s) +:+ ".psam") (Polars.write_csv df tab)).

(** The shape unpacking and flattening at the head of [write_pgen]:
    [(num_variants, num_samples, flat_genotypes)]. *)
Definition flatten_calldata (gt : ndarray Np.int64) (phased : bool)
  : result (nat * nat * ndarray Np.int64) :=
  if phased then
    match shape gt with
    | [num_variants; num_samples; num_alleles] =>
        match Np.reshape gt [num_variants; num_samples * num_alleles] with
        | inr flat => inr (num_variants, num_samples, flat)
        | inl e => inl e
        end
    | _ => inl ValueError
    end
  else
    match shape gt with
    | [num_variants; num_samples] => inr (num_variants, num_samples, gt)
    | _ => inl ValueError
    end.

(** [PGENWriter.write_pgen] *)
Definition write_pgen : M unit :=
  s ← get_self;
  log_info ("Writing to " +:+ to_string (filename s) +:+ ".pgen") ;;
  let gt := calldata_gt (snpobj s) in
  let phased := Nat.eqb (Np.ndim gt) 3 in
  '(num_variants, num_samples, flat_genotypes) ← lift (flatten_calldata gt phased);
  with_writer
    (EvPgenOpen (encode_utf8 (to_string (filename s))) num_samples num_variants phased)
    (for_each (seq 0 num_variants) (fun variant_index =>
       r ← lift (Np.getitem flat_genotypes variant_index);
       call (EvPgenAppend (Np.astype_int32 r) phased))).

(** [PGENWriter.write] *)
Definition write (vzs : bool) : M unit :=
  s ← get_self;
  (if PyStr.mem (suffix (filename s)) file_extensions
   then match with_suffix_empty (filename s) with
        | Some p => set_filename p
        | None => raise ValueError
        end
   else mret tt) ;;
  set_file_extension ".pgen" ;;
  write_pvar vzs ;;
  write_psam ;;
  write_pgen.

End Writer.

(** Running a method on a fresh writer object. *)
Definition run {A} (m : M A) (obj : SNPObject) (fname : string) : state * result A :=
  m (mkState (init obj fname) []).

(** A world in which no call raises and compression is the identity. *)
Definition quiet_world : World := mkWorld (fun _ _ => None) (fun b => b).

(** ** A reference encoder

    The binary encoder behind [pg.PgenWriter] is pgenlib, which is not part
    of the repository.  The reference encoder below stands for it where a
    statement needs an encoder that refuses what the format cannot hold. *)

Module RefEncoder.

Record session : Type := mkSession {
  num_samples : nat; num_variants : nat; phased : bool; records_written : nat;
}.

Definition step (cur : option session) (c : call_record) : option session :=
  match c with
  | (EvPgenOpen _ n v p, None) => Some (mkSession n v p 0)
  | (EvPgenOpen _ _ _ _, Some _) => None
  | (EvPgenAppend _ _, None) =>
      option_map (fun s => mkSession (num_samples s) (num_variants s) (phased s)
                                     (S (records_written s))) cur
  | (EvPgenClose, _) => None
  | _ => cur
  end.

Definition session_of (h : list call_record) : option session := fold_left step h None.

Definition max_count : Z := (2 ^ 31 - 1)%Z.

Definition row_length (s : session) : nat :=
  if phased s then num_samples s * 2 else num_samples s.

(** The small hardcall alphabet of 2-bit codes. *)
Definition hardcall (z : Z) : bool := (0 <=? z)%Z && (z <=? 3)%Z.

(** Modelled from the spec: the Genotype Block Encoder, which the source
    delegates to pgenlib.  The session holds the declared dimensions and the
    number of records written; opening fails with [InvalidDimensionError] on
    a count above [2^31 - 1]; an append fails with [RowShapeMismatchError]
    on a row that is not one-dimensional or whose length is not
    [num_samples] ([num_samples * 2] when phased), else with
    [UnsupportedGenotypeError] on a call value outside the supported
    alphabet; closing fails with [IncompleteWriteError] unless exactly
    [num_variants] records were written.  The spec leaves an append to a
    missing or full session open; it is refused here. *)
Definition raises (supported : Z -> bool) (h : list call_record) (ev : event) : option exn :=
  match ev with
  | EvPgenOpen _ n v _ =>
      if (Z.of_nat n <=? max_count)%Z && (Z.of_nat v <=? max_count)%Z
      then None else Some InvalidDimensionError
  | EvPgenAppend r _ =>
      match session_of h with
      | Some s =>
          if negb (Nat.eqb (Np.ndim r) 1 && Nat.eqb (length (data r)) (row_length s))
          then Some RowShapeMismatchError
          else if negb (forallb supported (data r)) then Some UnsupportedGenotypeError
          else if Nat.ltb (records_written s) (num_variants s) then None
          else Some IncompleteWriteError
      | None => Some IncompleteWriteError
      end
  | EvPgenClose =>
      match session_of h with
      | Some s =>
          if Nat.eqb (records_written s) (num_variants s) then None
          else Some IncompleteWriteError
      | None => None
      end
  | _ => None
  end.

Definition world (supported : Z -> bool) : World := mkWorld (raises supported) (fun b => b).

End RefEncoder.

(** ** Views of a run used in the statements *)

(** The path [write] settles on: a known suffix is stripped once. *)
Definition base_of (p : Path) : Path :=
  if PyStr.mem (suffix p) file_extensions
  then match with_suffix_empty p with Some q => q | None => p end
  else p.

(** The calls of a list of events in sequence, up to the first that raises. *)
Fixpoint calls (W : World) (h : list call_record) (evs : list event)
  : list call_record * option exn :=
  match evs with
  | [] => ([], None)
  | ev :: evs' =>
      match raises W h ev with
      | Some e => ([(ev, Some e)], Some e)
      | None =>
          let '(new, o) := calls W (h ++ [(ev, None)]) evs' in
          ((ev, None) :: new, o)
      end
  end.

(** One writer session: the opening call, the appends up to the first that
    raises, and the close that follows whenever the session was opened. *)
Definition pgen_session (W : World) (h : list call_record) (opn : event) (apps : list event)
  : list call_record * result unit :=
  match raises W h opn with
  | Some e => ([(opn, Some e)], inl e)
  | None =>
      let '(new, o) := calls W (h ++ [(opn, None)]) apps in
      let oc := raises W ((h ++ [(opn, None)]) ++ new) EvPgenClose in
      ((opn, None) :: new ++ [(EvPgenClose, oc)],
       match oc with
       | Some e => inl e
       | None => match o with Some e => inl e | None => inr tt end
       end)
  end.

(** Length of one flattened row of the call data. *)
Definition row_len {A} (gt : ndarray A) : nat := Np.size_of (tail (shape gt)).

(** Row [i] of the call data as [write_pgen] hands it on: one-dimensional,
    its values converted to 32 bits. *)
Definition variant_row (gt : ndarray Np.int64) (i : nat) : ndarray Z :=
  mk_ndarray [row_len gt]
    (map Np.wrap32 (take (row_len gt) (drop (i * row_len gt) (Np.values gt)))).

Definition variant_rows (gt : ndarray Np.int64) : list (ndarray Z) :=
  map (variant_row gt) (seq 0 (hd 0 (shape gt))).

Definition is_phased {A} (gt : ndarray A) : bool := Nat.eqb (Np.ndim gt) 3.

Definition append_events (gt : ndarray Np.int64) : list event :=
  map (fun r => EvPgenAppend r (is_phased gt)) (variant_rows gt).

(** What an append may look like in a session for phase flag [p] and rows
    of length [l]: a one-dimensional array of [l] values; the session is
    closed at most by a final close. *)
Definition session_call (p : bool) (l : nat) (c : call_record) : Prop :=
  match c.1 with
  | EvPgenAppend r q => q = p /\ shape r = [l] /\ length (data r) = l
  | EvPgenClose => True
  | _ => False
  end.

Definition is_pgen (ev : event) : bool :=
  match ev with
  | EvPgenOpen _ _ _ _ | EvPgenAppend _ _ | EvPgenClose => true
  | _ => false
  end.

Definition written_path (ev : event) : option string :=
  match ev with
  | EvWriteText p _ | EvWriteBytes p _ => Some p
  | _ => None
  end.

(** The arrays appended, in the order of the calls. *)
Definition appended (tr : list call_record) : list (ndarray Z) :=
  omap (fun c => match c.1 with EvPgenAppend r _ => Some r | _ => None end) tr.

(** The text of the variant table, before it is written or compressed. *)
Definition pvar_csv (obj : SNPObject) : result string :=
  match Np.column0 (variants_alt obj) with
  | inl e => inl e
  | inr alt =>
      match Polars.of_dict
              [("#CHROM", Polars.Values (variants_chrom obj));
               ("POS", Polars.Values (variants_pos obj));
               ("ID", Polars.Values (variants_id obj));
               ("REF", Polars.Values (variants_ref obj));
               ("ALT", Polars.Array alt);
               ("FILTER", Polars.Values (variants_filter_pass obj))] with
      | inl e => inl e
      | inr df => inr (Polars.write_csv df tab)
      end
  end.

(** The first allele of the ALT list of variant [i]: [variants_alt[i][0]]. *)
Definition first_alt (obj : SNPObject) (i : nat) : option string :=
  match Np.getitem (variants_alt obj) i with
  | inr r => head (data r)
  | inl _ => None
  end.

(** A variant table the data frame accepts: [n] variants in every column,
    and a two-dimensional ALT array with at least one allele per variant. *)
Definition variant_table (obj : SNPObject) (n k : nat) : Prop :=
  length (variants_chrom obj) = n /\ length (variants_pos obj) = n /\
  length (variants_id obj) = n /\ length (variants_ref obj) = n /\
  length (variants_filter_pass obj) = n /\
  shape (variants_alt obj) = [n; k] /\ 0 < k /\ Np.wf (variants_alt obj).

(** ** Tab-separated text, as the sidecar files are described

    A second description of the text of a sidecar file, by rows of fields,
    written with the Standard Library's functions on strings and lists and
    with none of the functions of the data frame above: a record is its
    fields joined by tabs and ended by a line feed, and the text is the
    header record followed by the records of the rows.  A value is written
    as the CSV writer's default does: a string as it is when it is not empty
    and holds no tab, quote, line feed or carriage return, else between
    quotes with its quotes doubled; an integer in decimal; a boolean as
    [true] or [false]; a null as nothing. *)
Module Tsv.

Definition special (c : ascii) : bool :=
  existsb (Ascii.eqb c) ["009"; "010"; "013"; "034"]%char.

Definition plain (s : string) : bool :=
  negb (String.eqb s EmptyString)
  && forallb (fun c => negb (special c)) (list_ascii_of_string s).

Definition quoted (s : string) : string :=
  string_of_list_ascii
    ("034"%char
     :: flat_map (fun c => if Ascii.eqb c "034" then ["034"; "034"]%char else [c])
                 (list_ascii_of_string s)
     ++ ["034"%char]).

Definition text_field (s : string) : string := if plain s then s else quoted s.

Definition field (v : pyval) : string :=
  match v with
  | PStr s => text_field s
  | PInt z => NilZero.string_of_int (Z.to_int z)
  | PBool true => "true"
  | PBool false => "false"
  | PNone => EmptyString
  end.

Definition record (fields : list string) : string :=
  String.append (String.concat (String "009" EmptyString) fields) (String "010" EmptyString).

Definition text (header : list string) (rows : list (list string)) : string :=
  String.concat EmptyString (map record (header :: rows)).

End Tsv.

(** The fields of the row of variant [i] in the variant file. *)
Definition pvar_fields (obj : SNPObject) (i : nat) : list string :=
  [Tsv.field (nth i (cells (variants_chrom obj)) PNone);
   Tsv.field (nth i (cells (variants_pos obj)) PNone);
   Tsv.field (nth i (cells (variants_id obj)) PNone);
   Tsv.field (nth i (cells (variants_ref obj)) PNone);
   match first_alt obj i with Some allele => Tsv.text_field allele | None => EmptyString end;
   Tsv.field (nth i (cells (variants_filter_pass obj)) PNone)].

(** The text of the variant file of [n] variants. *)
Definition pvar_text (obj : SNPObject) (n : nat) : string :=
  Tsv.text ["#CHROM"; "POS"; "ID"; "REF"; "ALT"; "FILTER"]
           (map (pvar_fields obj) (seq 0 n)).

(** The text of the sample file. *)
Definition psam_text (obj : SNPObject) : string :=
  Tsv.text ["IID"; "SEX"] (map (fun sample => [Tsv.field sample; "NA"]) (cells (samples obj))).

Abbreviation i64 z := (Np.mk_int64 z%Z eq_refl).

Definition demo_obj : SNPObject :=
  mkSNPObject (mk_ndarray [2;2;2] [i64 0; i64 0; i64 1; i64 1; i64 0; i64 1; i64 1; i64 0])
    (StrArray ["s1"; "s2"])
    (StrArray ["1"; "1"]) (IntArray [i64 100; i64 200]) (StrArray ["rs1"; "rs2"])
    (StrArray ["A"; "C"])
    (mk_ndarray [2;3] ["G"; "T"; "."; "T"; "."; "."])
    (BoolArray [true; true]).

Definition demo_state : state := mkState (init demo_obj "x") [].

(** A genotype object with no metadata around the call data [gt]. *)
Definition bare_obj (gt : ndarray Np.int64) : SNPObject :=
  mkSNPObject gt (StrArray []) (StrArray []) (IntArray []) (StrArray []) (StrArray [])
              (mk_ndarray [0; 1] []) (BoolArray []).

(** One sample, one variant, one call value beyond 32 bits. *)
Definition wide_obj : SNPObject :=
  mkSNPObject (mk_ndarray [1;1] [i64 4294967296]) (StrArray ["s1"])
    (StrArray ["1"]) (IntArray [i64 100]) (StrArray ["rs1"]) (StrArray ["A"])
    (mk_ndarray [1;1] ["G"]) (BoolArray [true]).

Definition wide_state : state := mkState (init wide_obj "x") [].

(** One variant, one sample, three alleles per call. *)
Definition triploid_obj : SNPObject :=
  mkSNPObject (mk_ndarray [1;1;3] [i64 0; i64 1; i64 2]) (StrArray ["s1"])
    (StrArray ["1"]) (IntArray [i64 100]) (StrArray ["rs1"]) (StrArray ["A"])
    (mk_ndarray [1;1] ["G"]) (BoolArray [true]).

Definition triploid_state : state := mkState (init triploid_obj "x") [].

Definition int32_range (z : Z) : Prop := (- 2 ^ 31 <= z < 2 ^ 31)%Z.

(** The state in which the three files are written: the known suffix is
    stripped and the extension field set. *)
Definition settled (st : state) : state :=
  mkState (mkPGENWriter (snpobj (self st)) (base_of (filename (self st))) (Some ".pgen"))
          (trace st).

(** What a sidecar call may be: never a call to the binary writer, and a
    file write only to one of the sidecar paths of [base]. *)
Definition sidecar_call (base : string) (vzs : bool) (c : call_record) : Prop :=
  match c.1 with
  | EvLog _ => True
  | EvWriteText p _ => p = base +:+ ".psam" \/ (vzs = false /\ p = base +:+ ".pvar")
  | EvWriteBytes p _ => vzs = true /\ p = (base +:+ ".pvar") +:+ ".zst"
  | _ => False
  end.

(** What a call of [write_pgen] may be: never a file write of its own, and
    the binary writer is opened on [base] itself. *)
Definition pgen_call (base : string) (c : call_record) : Prop :=
  match c.1 with
  | EvWriteText _ _ | EvWriteBytes _ _ => False
  | EvPgenOpen f _ _ _ => f = encode_utf8 base
  | _ => True
  end.

(** [emits Q m st]: from [st], [m] leaves the object as it is and extends
    the trace by calls that all satisfy [Q]. *)
Definition emits {A} (Q : call_record -> Prop) (m : M A) (st : state) : Prop :=
  self (m st).1 = self st /\
  exists new, trace (m st).1 = trace st ++ new /\ Forall Q new.

(** [a[i, j, k]] on a three-dimensional array, by indexing one axis at a time. *)
Definition item3 {A} (a : ndarray A) (i j k : nat) : option A :=
  match Np.getitem a i with
  | inr b =>
      match Np.getitem b j with
      | inr c =>
          match Np.getitem c k with
          | inr d => head (data d)
          | inl _ => None
          end
      | inl _ => None
      end
  | inl _ => None
  end.

(** A world whose binary writer refuses every append once [limit] calls of
    any kind were made. *)
Definition failing_world (limit : nat) : World :=
  mkWorld (fun h ev => match ev with
                       | EvPgenAppend _ _ =>
                           if Nat.leb limit (length h) then Some IOFailureError else None
                       | _ => None
                       end) (fun b => b).

(** A world in which writing a text file fails once a binary writer was
    closed: a disk that fills up after the first write. *)
Definition late_failure_world : World :=
  mkWorld (fun h ev => match ev with
                       | EvWriteText _ _ =>
                           if existsb (fun c : call_record =>
                                         match c.1 with EvPgenClose => true | _ => false end) h
                           then Some OSError else None
                       | _ => None
                       end) (fun b => b).

(** * Properties *)

(** ** Strings and paths *)

Lemma rfind_drop c s i :
  PyStr.rfind c s = Some i -> PyStr.rfind c (PyStr.drop i s) = Some 0.
Proof.
  revert i. induction s as [|a s IH]; intros i; simpl; [discriminate|].
  destruct (PyStr.rfind c s) as [j|] eqn:Hj.
  - intros [= <-]. simpl. now apply IH.
  - destruct (Ascii.eqb a c) eqn:Hac; [|discriminate].
    intros [= <-]. simpl. now rewrite Hj, Hac.
Qed.

(** A suffix starts at the last dot of the name: it holds one dot only. *)
Lemma name_suffix_last_dot nm :
  name_suffix nm = EmptyString \/ PyStr.rfind "." (name_suffix nm) = Some 0.
Proof.
  unfold name_suffix. destruct (PyStr.rfind "." nm) as [i|] eqn:Hi; [|now left].
  destruct (_ && _); [|now left]. right. now apply rfind_drop.
Qed.

(** The fourth entry of [file_extensions] can never match. *)
Lemma suffix_never_pvar_zst p : suffix p <> ".pvar.zst".
Proof.
  unfold suffix. intros H.
  destruct (name_suffix_last_dot (name p)) as [E|E]; rewrite H in E; discriminate.
Qed.

Lemma append_cons a s t : String a s +:+ t = String a (s +:+ t).
Proof. reflexivity. Qed.

Lemma string_length_append s t : String.length (s +:+ t) = String.length s + String.length t.
Proof. induction s as [|a s IH]; [done|]. rewrite append_cons. simpl. congruence. Qed.

Lemma append_neq_self s t : t <> EmptyString -> s +:+ t <> s.
Proof.
  intros Ht H. apply (f_equal String.length) in H. rewrite string_length_append in H.
  destruct t; [congruence|simpl in H; lia].
Qed.

Lemma encode_utf8_length s : length (encode_utf8 s) = String.length s.
Proof.
  unfold encode_utf8, list_byte_of_string.
  induction s as [|a s IH]; simpl; [done|]. now rewrite IH.
Qed.

Lemma encode_utf8_append_neq s t : t <> EmptyString -> encode_utf8 (s +:+ t) <> encode_utf8 s.
Proof.
  intros Ht H. apply (f_equal (@length _)) in H.
  rewrite !encode_utf8_length, string_length_append in H.
  destruct t; [congruence|simpl in H; lia].
Qed.

(** ** The monad: what a method adds to the trace *)

Lemma emits_nothing {A} Q (m : M A) st r : m st = (st, r) -> emits Q m st.
Proof. intros E. unfold emits. rewrite E. split; [done|]. exists []. now rewrite app_nil_r. Qed.

Lemma emits_one {A} (Q : call_record -> Prop) (m : M A) st c r :
  m st = (mkState (self st) (trace st ++ [c]), r) -> Q c -> emits Q m st.
Proof. intros E HQ. unfold emits. rewrite E. split; [done|]. exists [c]. auto. Qed.

Lemma emits_call W Q ev st : (forall o, Q (ev, o)) -> emits Q (call W ev) st.
Proof. intros HQ. eapply emits_one; [reflexivity|apply HQ]. Qed.

Lemma emits_lift {A} Q (r : result A) st : emits Q (lift r) st.
Proof. now eapply emits_nothing. Qed.

Lemma emits_bind {A B} Q (m : M A) (f : A -> M B) st :
  emits Q m st ->
  (forall a st', m st = (st', inr a) -> emits Q (f a) st') ->
  emits Q (m ≫= f) st.
Proof.
  intros [Hs (new & Ht & HQ)] Hf. unfold emits, mbind, M_bind.
  destruct (m st) as [st' [e|a]] eqn:E; simpl in *.
  - split; [done|]. now exists new.
  - destruct (Hf a st' eq_refl) as [Hs' (new' & Ht' & HQ')].
    split; [congruence|]. exists (new ++ new').
    rewrite Ht', Ht, app_assoc. split; [done|]. now apply Forall_app.
Qed.

Lemma emits_for_each {A} Q (xs : list A) (body : A -> M unit) :
  (forall x st, emits Q (body x) st) -> forall st, emits Q (for_each xs body) st.
Proof.
  intros Hb. induction xs as [|x xs IH]; intros st; simpl.
  - now eapply emits_nothing.
  - apply emits_bind; [apply Hb|]. intros _ st' _. apply IH.
Qed.

Lemma emits_closing W Q (body : M unit) st :
  emits Q body st -> (forall o, Q (EvPgenClose, o)) -> emits Q (closing W body) st.
Proof.
  intros [Hs (new & Ht & HQ)] Hc. unfold emits, closing.
  destruct (body st) as [st1 r] eqn:E. simpl in *.
  split; [done|]. exists (new ++ [(EvPgenClose, raises W (trace st1) EvPgenClose)]).
  rewrite Ht, app_assoc. split; [done|]. apply Forall_app. auto.
Qed.

(** ** Sequences of calls *)

Lemma calls_prefix W evs : forall h, map fst (calls W h evs).1 `prefix_of` evs.
Proof.
  induction evs as [|ev evs IH]; intros h; simpl; [done|].
  destruct (raises W h ev).
  - simpl. now apply prefix_cons, prefix_nil.
  - specialize (IH (h ++ [(ev, None)])).
    destruct (calls W (h ++ [(ev, None)]) evs) as [new o]. simpl in *.
    now apply prefix_cons.
Qed.

Lemma calls_quiet W evs : forall h,
  (forall h' ev, ev ∈ evs -> raises W h' ev = None) ->
  calls W h evs = (map (fun ev => (ev, None)) evs, None).
Proof.
  induction evs as [|ev evs IH]; intros h Hq; simpl; [done|].
  rewrite Hq by apply list_elem_of_here.
  rewrite IH; [done|]. intros h' ev' Hin. apply Hq. now apply list_elem_of_further.
Qed.

(** When a call raises, the calls before it returned and none follows. *)
Lemma calls_failed W evs : forall h e,
  (calls W h evs).2 = Some e ->
  exists k ev, evs !! k = Some ev /\
    (calls W h evs).1 = map (fun ev => (ev, None)) (take k evs) ++ [(ev, Some e)] /\
    raises W (h ++ map (fun ev => (ev, None)) (take k evs)) ev = Some e.
Proof.
  induction evs as [|ev evs IH]; intros h e; simpl; [discriminate|].
  destruct (raises W h ev) as [e'|] eqn:Hr.
  - simpl. intros [= ->]. exists 0, ev. simpl. now rewrite app_nil_r.
  - specialize (IH (h ++ [(ev, None)]) e).
    destruct (calls W (h ++ [(ev, None)]) evs) as [new o]. simpl in *.
    intros Ho. destruct (IH Ho) as (k & ev' & Hk & Hn & Hr').
    exists (S k), ev'. simpl. rewrite Hn. split; [done|]. split; [done|].
    now rewrite <- app_assoc in Hr'.
Qed.

Lemma calls_returned W evs : forall h,
  (calls W h evs).2 = None ->
  forall k ev, evs !! k = Some ev ->
    raises W (h ++ map (fun ev => (ev, None)) (take k evs)) ev = None.
Proof.
  induction evs as [|ev0 evs IH]; intros h; simpl; [done|].
  destruct (raises W h ev0) eqn:Hr; [discriminate|].
  specialize (IH (h ++ [(ev0, None)])).
  destruct (calls W (h ++ [(ev0, None)]) evs) as [new o]. simpl in *.
  intros Ho [|k] ev Hk; simpl in *.
  - injection Hk as <-. now rewrite app_nil_r.
  - specialize (IH Ho k ev Hk). now rewrite <- app_assoc in IH.
Qed.

Lemma calls_all_returned W evs : forall h,
  (calls W h evs).2 = None -> (calls W h evs).1 = map (fun ev => (ev, None)) evs.
Proof.
  induction evs as [|ev evs IH]; intros h; simpl; [done|].
  destruct (raises W h ev); [discriminate|].
  specialize (IH (h ++ [(ev, None)])).
  destruct (calls W (h ++ [(ev, None)]) evs) as [new o]. simpl in *.
  intros ->. now rewrite IH.
Qed.

Lemma calls_Forall W (Q : call_record -> Prop) evs h :
  (forall ev o, ev ∈ evs -> Q (ev, o)) -> Forall Q (calls W h evs).1.
Proof.
  intros HQ. apply Forall_forall. intros [ev o] Hin.
  apply HQ. apply (elem_of_prefix (map fst (calls W h evs).1)); [|apply calls_prefix].
  now apply (list_elem_of_fmap_2 fst) in Hin.
Qed.

Lemma for_each_calls W evs : forall st,
  for_each evs (call W) st =
  (mkState (self st) (trace st ++ (calls W (trace st) evs).1),
   match (calls W (trace st) evs).2 with Some e => inl e | None => inr tt end).
Proof.
  induction evs as [|ev evs IH]; intros [w h]; simpl.
  - now rewrite app_nil_r.
  - unfold mbind, M_bind, call. simpl.
    destruct (raises W h ev); [done|].
    rewrite IH. simpl.
    destruct (calls W (h ++ [(ev, None)]) evs) as [new o]. simpl.
    now rewrite <- app_assoc.
Qed.

Lemma for_each_fmap {A} W (g : A -> event) (body : A -> M unit) xs :
  (forall x st, x ∈ xs -> body x st = call W (g x) st) ->
  forall st, for_each xs body st = for_each (map g xs) (call W) st.
Proof.
  induction xs as [|x xs IH]; intros Hb st; simpl; [done|].
  unfold mbind, M_bind. rewrite Hb by apply list_elem_of_here.
  destruct (call W (g x) st) as [st' [e|[]]]; [done|].
  apply IH. intros y st'' Hy. apply Hb. now apply list_elem_of_further.
Qed.

Lemma pgen_session_Forall W (Q : call_record -> Prop) h opn apps :
  (forall o, Q (opn, o)) -> (forall ev o, ev ∈ apps -> Q (ev, o)) ->
  (forall o, Q (EvPgenClose, o)) ->
  Forall Q (pgen_session W h opn apps).1.
Proof.
  intros Ho Ha Hc. unfold pgen_session.
  destruct (raises W h opn); simpl; [auto|].
  pose proof (calls_Forall W Q apps (h ++ [(opn, None)]) Ha) as HF.
  destruct (calls W (h ++ [(opn, None)]) apps) as [new o]. simpl in *.
  constructor; [apply Ho|]. apply Forall_app. auto.
Qed.

(** ** [write_pgen] as one writer session *)

Lemma flatten_calldata_2d gt v n :
  shape gt = [v; n] -> flatten_calldata gt (is_phased gt) = inr (v, n, gt).
Proof.
  intros Hs. unfold flatten_calldata, is_phased, Np.ndim. rewrite Hs. reflexivity.
Qed.

Lemma flatten_calldata_3d gt v n a :
  shape gt = [v; n; a] ->
  flatten_calldata gt (is_phased gt) = inr (v, n, mk_ndarray [v; n * a] (data gt)).
Proof.
  intros Hs. unfold flatten_calldata, is_phased, Np.ndim, Np.reshape. rewrite Hs. simpl.
  replace (Nat.eqb (v * (n * a * 1)) (v * (n * (a * 1)))) with true; [done|].
  symmetry. apply Nat.eqb_eq. lia.
Qed.

Lemma flatten_calldata_other gt :
  Np.ndim gt <> 2 -> Np.ndim gt <> 3 -> flatten_calldata gt (is_phased gt) = inl ValueError.
Proof.
  unfold flatten_calldata, is_phased, Np.ndim. intros H2 H3.
  destruct (shape gt) as [|v [|n [|a [|b sh]]]]; simpl in *; congruence.
Qed.

Lemma write_pgen_unfold W st :
  write_pgen W st =
  let w := self st in let gt := calldata_gt (snpobj w) in
  let h := trace st ++ [(EvLog ("Writing to " +:+ to_string (filename w) +:+ ".pgen"), None)] in
  match flatten_calldata gt (is_phased gt) with
  | inl e => (mkState w h, inl e)
  | inr (v, n, flat) =>
     with_writer W (EvPgenOpen (encode_utf8 (to_string (filename w))) n v (is_phased gt))
       (for_each (seq 0 v) (fun i =>
          r ← lift (Np.getitem flat i);
          call W (EvPgenAppend (Np.astype_int32 r) (is_phased gt)))) (mkState w h)
  end.
Proof.
  unfold write_pgen, mbind, M_bind, get_self, log_info, lift. simpl.
  fold (is_phased (calldata_gt (snpobj (self st)))).
  destruct (flatten_calldata _ _) as [e|[[v n] flat]]; reflexivity.
Qed.

Lemma getitem_row gt flat v n al i :
  shape gt = v :: n :: al ->
  shape flat = [v; Np.size_of (n :: al)] -> data flat = data gt ->
  i ∈ seq 0 v ->
  exists r, Np.getitem flat i = inr r /\ Np.astype_int32 r = variant_row gt i.
Proof.
  intros Hs Hf Hd Hi. apply elem_of_seq in Hi.
  unfold Np.getitem. rewrite Hf.
  replace (Nat.ltb i v) with true by (symmetry; apply Nat.ltb_lt; lia).
  eexists. split; [reflexivity|].
  unfold variant_row, row_len, Np.astype_int32, Np.values. rewrite Hs, Hd. simpl.
  rewrite !Nat.mul_1_r. f_equal.
  now rewrite skipn_map, firstn_map, map_map.
Qed.

Lemma write_pgen_run W st v n al :
  let w := self st in
  let gt := calldata_gt (snpobj w) in
  let h := trace st ++ [(EvLog ("Writing to " +:+ to_string (filename w) +:+ ".pgen"), None)] in
  shape gt = v :: n :: al -> length al <= 1 ->
  write_pgen W st =
  (mkState w (h ++ (pgen_session W h (EvPgenOpen (encode_utf8 (to_string (filename w))) n v (is_phased gt))
                                 (append_events gt)).1),
   (pgen_session W h (EvPgenOpen (encode_utf8 (to_string (filename w))) n v (is_phased gt))
                 (append_events gt)).2).
Proof.
  intros w gt h Hs Hal. rewrite write_pgen_unfold. cbv zeta. fold w. fold gt. fold h.
  assert (exists flat, flatten_calldata gt (is_phased gt) = inr (v, n, flat) /\
            shape flat = [v; Np.size_of (n :: al)] /\ data flat = data gt)
    as (flat & -> & Hfs & Hfd).
  { destruct al as [|a [|b al]]; [| |simpl in Hal; lia].
    - exists gt. rewrite (flatten_calldata_2d gt v n Hs). simpl.
      rewrite Hs. now rewrite Nat.mul_1_r.
    - eexists. rewrite (flatten_calldata_3d gt v n a Hs). split; [reflexivity|].
      simpl. now rewrite Nat.mul_1_r. }
  unfold with_writer, mbind, M_bind, pgen_session.
  unfold call at 1. simpl.
  destruct (raises W h _) as [e|]; [done|].
  unfold closing.
  rewrite (for_each_fmap W (fun i => EvPgenAppend (variant_row gt i) (is_phased gt))).
  2:{ intros i st' Hi. destruct (getitem_row gt flat v n al i Hs Hfs Hfd Hi) as (r & Hr & Hd).
      unfold mbind, M_bind, lift. rewrite Hr. cbv beta iota. now rewrite Hd. }
  rewrite for_each_calls. simpl.
  replace (map (fun i => EvPgenAppend (variant_row gt i) (is_phased gt)) (seq 0 v))
    with (append_events gt).
  2:{ unfold append_events, variant_rows. rewrite Hs. simpl. now rewrite map_map. }
  destruct (calls W _ (append_events gt)) as [new o]. simpl.
  unfold call. simpl. rewrite <- !app_assoc. simpl.
  destruct (raises W _ EvPgenClose); [done|]. now destruct o.
Qed.

Lemma write_pgen_bad_rank W st :
  let w := self st in
  let gt := calldata_gt (snpobj w) in
  Np.ndim gt <> 2 -> Np.ndim gt <> 3 ->
  write_pgen W st =
  (mkState w (trace st ++ [(EvLog ("Writing to " +:+ to_string (filename w) +:+ ".pgen"), None)]),
   inl ValueError).
Proof.
  intros w gt H2 H3. rewrite write_pgen_unfold. cbv zeta. fold w. fold gt.
  now rewrite (flatten_calldata_other gt H2 H3).
Qed.

(** ** Rows of the call data *)

Lemma values_length gt : length (Np.values gt) = length (data gt).
Proof. unfold Np.values. apply length_map. Qed.

Lemma chunk_length {A} (d : list A) v l i :
  length d = v * l -> i < v -> length (take l (drop (i * l) d)) = l.
Proof.
  intros Hd Hi. rewrite length_take, length_drop, Hd. nia.
Qed.

Lemma chunks_concat {A B} (f : A -> B) l v : forall d : list A,
  length d = v * l ->
  concat (map (fun i => map f (take l (drop (i * l) d))) (seq 0 v)) = map f d.
Proof.
  induction v as [|v IH]; intros d Hd.
  - destruct d; [done|simpl in Hd; lia].
  - rewrite <- cons_seq, <- fmap_S_seq. simpl. rewrite map_map.
    rewrite drop_0. transitivity (map f (take l d ++ drop l d)); [|now rewrite take_drop].
    rewrite map_app. f_equal.
    rewrite <- (IH (drop l d)) by (rewrite length_drop; lia).
    f_equal. apply map_ext. intros i. rewrite drop_drop.
    replace (l + i * l) with (S i * l) by lia. reflexivity.
Qed.

Lemma variant_row_shape gt v sh i :
  shape gt = v :: sh -> shape (variant_row gt i) = [Np.size_of sh].
Proof. intros Hs. unfold variant_row, row_len. now rewrite Hs. Qed.

Lemma variant_row_length gt v sh i :
  Np.wf gt -> shape gt = v :: sh -> i < v ->
  length (data (variant_row gt i)) = Np.size_of sh.
Proof.
  unfold Np.wf, variant_row, row_len. intros Hw Hs Hi. rewrite Hs in *. simpl in *.
  rewrite length_map. apply (chunk_length _ v); [|done]. now rewrite values_length.
Qed.

Lemma variant_rows_length gt : length (variant_rows gt) = hd 0 (shape gt).
Proof. unfold variant_rows. now rewrite length_map, length_seq. Qed.

Lemma variant_rows_concat gt v sh :
  Np.wf gt -> shape gt = v :: sh ->
  concat (map data (variant_rows gt)) = map Np.wrap32 (Np.values gt).
Proof.
  unfold Np.wf, variant_rows, variant_row, row_len. intros Hw Hs. rewrite Hs in *. simpl in *.
  rewrite map_map. simpl. apply chunks_concat. now rewrite values_length.
Qed.

Lemma variant_rows_Forall_length gt v sh :
  Np.wf gt -> shape gt = v :: sh ->
  Forall (fun r => shape r = [Np.size_of sh] /\ length (data r) = Np.size_of sh)
         (variant_rows gt).
Proof.
  intros Hw Hs. unfold variant_rows. rewrite Hs. simpl.
  apply Forall_forall. intros r Hr. apply list_elem_of_fmap in Hr as (i & -> & Hi).
  apply elem_of_seq in Hi. split; [now apply (variant_row_shape gt v)|].
  apply (variant_row_length gt v); [done..|lia].
Qed.

(** Element [j] of row [i] is the element of the array at flat index
    [i * row_len + j], converted. *)
Lemma variant_row_lookup gt v sh i j :
  Np.wf gt -> shape gt = v :: sh -> i < v -> j < Np.size_of sh ->
  data (variant_row gt i) !! j = Np.wrap32 <$> Np.values gt !! (i * Np.size_of sh + j).
Proof.
  unfold Np.wf, variant_row, row_len. intros Hw Hs Hi Hj. rewrite Hs in *. simpl in *.
  rewrite list_lookup_fmap, lookup_take_lt by done. now rewrite lookup_drop.
Qed.

Lemma write_pgen_events W st v n al :
  let w := self st in
  let gt := calldata_gt (snpobj w) in
  Np.wf gt -> shape gt = v :: n :: al -> length al <= 1 ->
  exists o rest,
    trace (write_pgen W st).1 =
      trace st ++ (EvLog ("Writing to " +:+ to_string (filename w) +:+ ".pgen"), None)
               :: (EvPgenOpen (encode_utf8 (to_string (filename w))) n v (is_phased gt), o)
               :: rest /\
    Forall (session_call (is_phased gt) (n * Np.size_of al)) rest.
Proof.
  intros w gt Hw Hs Hal. rewrite (write_pgen_run W st v n al Hs Hal). fold w gt. simpl.
  unfold pgen_session.
  destruct (raises W _ (EvPgenOpen _ _ _ _)) as [e|].
  - exists (Some e), []. simpl. rewrite <- app_assoc. auto.
  - match goal with |- context [calls W ?h ?evs] =>
      pose proof (calls_Forall W (session_call (is_phased gt) (n * Np.size_of al)) evs h) as HF;
      destruct (calls W h evs) as [new oo] end.
    simpl in *. eexists None, _. rewrite <- app_assoc. simpl. split; [reflexivity|].
    apply Forall_app. split; [|repeat constructor].
    apply HF. intros ev o Hev. unfold append_events in Hev.
    apply list_elem_of_fmap in Hev as (r & -> & Hr).
    unfold session_call. simpl. split; [done|].
    pose proof (variant_rows_Forall_length gt v (n :: al) Hw Hs) as HL.
    rewrite Forall_forall in HL. now apply HL.
Qed.

(** ** The binary genotype file *)

(** A session that returns made every call, and every call returned. *)
Lemma pgen_session_returns W h opn apps :
  (pgen_session W h opn apps).2 = inr tt ->
  (pgen_session W h opn apps).1 =
    (opn, None) :: map (fun ev => (ev, None)) apps ++ [(EvPgenClose, None)].
Proof.
  unfold pgen_session. destruct (raises W h opn); [discriminate|].
  pose proof (calls_all_returned W apps (h ++ [(opn, None)])) as Hall.
  destruct (calls W (h ++ [(opn, None)]) apps) as [new o]. simpl in *.
  destruct (raises W _ EvPgenClose); [discriminate|].
  destruct o; [discriminate|]. intros _. now rewrite Hall.
Qed.

(** A session that raises raises the exception of one of its calls. *)
Lemma pgen_session_raises W h opn apps e :
  (pgen_session W h opn apps).2 = inl e ->
  Exists (fun c => c.2 = Some e) (pgen_session W h opn apps).1.
Proof.
  unfold pgen_session. destruct (raises W h opn) as [e'|].
  { simpl. intros [= <-]. now apply Exists_cons_hd. }
  pose proof (calls_failed W apps (h ++ [(opn, None)])) as Hf.
  destruct (calls W (h ++ [(opn, None)]) apps) as [new o]. simpl in *.
  destruct (raises W _ EvPgenClose) as [ec|].
  { intros [= <-]. apply Exists_cons_tl, Exists_app. right. now apply Exists_cons_hd. }
  destruct o as [e'|]; [|discriminate]. intros [= <-].
  destruct (Hf e' eq_refl) as (k & ev & _ & -> & _).
  apply Exists_cons_tl, Exists_app. left. apply Exists_app. right. now apply Exists_cons_hd.
Qed.

Lemma appended_append_events gt : appended (map (fun ev => (ev, None)) (append_events gt)) = variant_rows gt.
Proof.
  unfold appended, append_events. induction (variant_rows gt) as [|r rs IH]; simpl; [done|].
  f_equal. exact IH.
Qed.

(** In any world the rows appended are an initial segment of the rows of
    the call data: none is skipped, repeated or reordered. *)
Lemma write_pgen_appended_prefix W st v n al :
  let gt := calldata_gt (snpobj (self st)) in
  shape gt = v :: n :: al -> length al <= 1 ->
  exists new, trace (write_pgen W st).1 = trace st ++ new /\
              appended new `prefix_of` variant_rows gt.
Proof.
  intros gt Hs Hal. rewrite (write_pgen_run W st v n al Hs Hal). fold gt. simpl.
  eexists. rewrite <- app_assoc. split; [reflexivity|].
  unfold pgen_session. destruct (raises W _ (EvPgenOpen _ _ _ _)); [apply prefix_nil|].
  match goal with |- context [calls W ?h ?evs] =>
    pose proof (calls_prefix W evs h) as [k Hk]; destruct (calls W h evs) as [new o] end.
  simpl in *. unfold appended. simpl. rewrite omap_app. simpl. rewrite app_nil_r.
  exists (omap (fun ev => match ev with EvPgenAppend r _ => Some r | _ => None end) k).
  transitivity (omap (fun ev => match ev with EvPgenAppend r _ => Some r | _ => None end)
                     (append_events gt)).
  - unfold append_events. induction (variant_rows gt) as [|r rs IH]; simpl; [done|].
    f_equal. exact IH.
  - rewrite Hk, omap_app. f_equal. clear Hk. induction new as [|[ev oo] new IH]; [done|].
    destruct ev; simpl; try exact IH. f_equal. exact IH.
Qed.

(** C3: [write_pgen] opens the binary writer with [variant_ct] equal to the
    number of rows of the call data and appends the rows one by one in row
    order; each row is one-dimensional and the rows, concatenated, are the
    array's elements in storage order.  In every run the rows appended are
    an initial segment of the rows.  A run that returns made exactly
    [num_variants] appends, one per row in row order, and then closed the
    writer; a run that does not return raises the exception of one of its
    calls to the binary writer. *)
Theorem write_pgen_appends_rows_in_order W st v n al :
  let w := self st in
  let gt := calldata_gt (snpobj w) in
  let phased := Nat.eqb (Np.ndim gt) 3 in
  let intro := (EvLog ("Writing to " +:+ to_string (filename w) +:+ ".pgen"), None) in
  let opening := EvPgenOpen (encode_utf8 (to_string (filename w))) n v phased in
  Np.wf gt -> shape gt = v :: n :: al -> length al <= 1 ->
  exists rows,
    length rows = v /\
    concat (map data rows) = map Np.wrap32 (Np.values gt) /\
    Forall (fun r => shape r = [Np.size_of (n :: al)] /\
                     length (data r) = Np.size_of (n :: al)) rows /\
    exists o rest,
      trace (write_pgen W st).1 = trace st ++ intro :: (opening, o) :: rest /\
      appended rest `prefix_of` rows /\
      (((write_pgen W st).2 = inr tt /\ o = None /\
        rest = map (fun r => (EvPgenAppend r phased, None)) rows ++ [(EvPgenClose, None)])
       \/
       (exists e, (write_pgen W st).2 = inl e /\
                  Exists (fun c => c.2 = Some e) ((opening, o) :: rest))).
Proof.
  intros w gt phased intro opening Hw Hs Hal. exists (variant_rows gt).
  split; [|split; [|split]].
  - rewrite variant_rows_length. fold gt. now rewrite Hs.
  - now apply (variant_rows_concat gt v (n :: al)).
  - now apply (variant_rows_Forall_length gt v).
  - destruct (write_pgen_events W st v n al Hw Hs Hal) as (o & rest & Ht & _).
    destruct (write_pgen_appended_prefix W st v n al Hs Hal) as (new & Ht' & Hp).
    exists o, rest. split; [exact Ht|].
    rewrite Ht in Ht'. apply app_inv_head in Ht'. split; [now rewrite <- Ht' in Hp|].
    clear Ht' Hp new. revert Ht.
    rewrite (write_pgen_run W st v n al Hs Hal). fold w gt. simpl.
    fold (is_phased gt). rewrite <- app_assoc. simpl. intros Ht.
    apply app_inv_head in Ht. injection Ht as Ht.
    match type of Ht with (pgen_session W ?h ?opn ?apps).1 = _ =>
      pose proof (pgen_session_returns W h opn apps) as Hret;
      pose proof (pgen_session_raises W h opn apps) as Hrai;
      destruct (pgen_session W h opn apps) as [new [e|[]]] end; simpl in *.
    + right. exists e. split; [done|]. specialize (Hrai e eq_refl). rewrite Ht in Hrai.
      exact Hrai.
    + left. split; [done|]. rewrite (Hret eq_refl) in Ht. injection Ht as <- <-.
      split; [done|]. unfold append_events. now rewrite map_map.
Qed.

Lemma write_pgen_appends_rows_in_order_witness :
  exists rows,
    length rows = 2 /\ concat (map data rows) = [0; 0; 1; 1; 0; 1; 1; 0]%Z /\
    (write_pgen (RefEncoder.world RefEncoder.hardcall) demo_state).2 = inr tt /\
    appended (trace (write_pgen (RefEncoder.world RefEncoder.hardcall) demo_state).1) = rows.
Proof.
  destruct (write_pgen_appends_rows_in_order (RefEncoder.world RefEncoder.hardcall)
              demo_state 2 2 [2])
    as (rows & Hlen & Hcat & _ & o & rest & Ht & _ & [(Hr & -> & ->) | (e & He & _)]);
    [reflexivity|reflexivity|simpl; lia| |discriminate He].
  exists rows. split; [exact Hlen|]. split; [exact Hcat|]. split; [exact Hr|].
  rewrite Ht. clear. unfold appended. simpl. rewrite omap_app. simpl. rewrite app_nil_r.
  induction rows as [|r rows IH]; simpl; [done|]. f_equal. exact IH.
Defined.



(** ** Call values and the encoder's alphabet *)

Lemma wrap32_id z : int32_range z -> Np.wrap32 z = z.
Proof. unfold int32_range, Np.wrap32. intros H. rewrite Z.mod_small; lia. Qed.

Lemma map_wrap32_id zs : Forall int32_range zs -> map Np.wrap32 zs = zs.
Proof. induction 1 as [|z zs Hz _ IH]; simpl; [done|]. now rewrite wrap32_id, IH. Qed.

Lemma wrap32_range z : int32_range (Np.wrap32 z).
Proof.
  unfold int32_range, Np.wrap32.
  pose proof (Z.mod_pos_bound (z + 2 ^ 31) (2 ^ 32)). lia.
Qed.

Lemma wrap32_idem z : Np.wrap32 (Np.wrap32 z) = Np.wrap32 z.
Proof. apply wrap32_id, wrap32_range. Qed.

Lemma session_of_app h c : RefEncoder.session_of (h ++ [c]) = RefEncoder.step (RefEncoder.session_of h) c.
Proof. unfold RefEncoder.session_of. now rewrite fold_left_app. Qed.

Lemma fold_step_appends p rs : forall n v w,
  fold_left RefEncoder.step
    (map (fun ev => (ev, None)) (map (fun r => EvPgenAppend r p) rs))
    (Some (RefEncoder.mkSession n v p w))
  = Some (RefEncoder.mkSession n v p (w + length rs)).
Proof.
  induction rs as [|r rs IH]; intros n v w; simpl.
  - do 2 f_equal. lia.
  - rewrite IH. do 2 f_equal. lia.
Qed.

Lemma session_of_appends h n v p rows k :
  RefEncoder.session_of h = Some (RefEncoder.mkSession n v p 0) ->
  RefEncoder.session_of
    (h ++ map (fun ev => (ev, None)) (take k (map (fun r => EvPgenAppend r p) rows)))
  = Some (RefEncoder.mkSession n v p (length (take k rows))).
Proof.
  intros Hh. rewrite firstn_map. unfold RefEncoder.session_of in *.
  rewrite fold_left_app, Hh. apply fold_step_appends.
Qed.

Lemma forallb_false_Exists {A} (f : A -> bool) l :
  forallb f l = false <-> Exists (fun x => f x = false) l.
Proof.
  induction l as [|x l IH]; simpl.
  - split; [discriminate|]. intros H. inversion H.
  - rewrite andb_false_iff, Exists_cons, IH. tauto.
Qed.

Lemma Exists_chunk {A} (P : A -> Prop) (d : list A) v l :
  length d = v * l -> Exists P d ->
  exists k, k < v /\ Exists P (take l (drop (k * l) d)).
Proof.
  intros Hd HE. pose proof (chunks_concat id l v d Hd) as Hc.
  rewrite map_id in Hc. rewrite <- Hc in HE. clear Hc.
  apply Exists_exists in HE as (z & Hz & HP).
  apply list_elem_of_In, in_concat in Hz as (c & Hc & Hz).
  apply in_map_iff in Hc as (k & <- & Hk). apply in_seq in Hk.
  exists k. split; [lia|]. apply Exists_exists. exists z. split; [|done].
  apply list_elem_of_In. now rewrite map_id in Hz.
Qed.

(** What the reference encoder answers to the append of row [k] after the
    rows before it were accepted. *)
Lemma ref_append_answer supported h gt v n al k r :
  let p := is_phased gt in
  Np.wf gt -> shape gt = v :: n :: al -> al = [] \/ al = [2] ->
  RefEncoder.session_of h = Some (RefEncoder.mkSession n v p 0) ->
  variant_rows gt !! k = Some r ->
  RefEncoder.raises supported
    (h ++ map (fun ev => (ev, None)) (take k (append_events gt))) (EvPgenAppend r p)
  = if forallb supported (data r) then None else Some UnsupportedGenotypeError.
Proof.
  intros p Hw Hs Hal Hh Hr. unfold append_events. simpl.
  fold p. rewrite (session_of_appends h n v p _ k Hh).
  pose proof (lookup_lt_Some _ _ _ Hr) as Hk.
  pose proof (variant_rows_Forall_length gt v (n :: al) Hw Hs) as HL.
  rewrite Forall_forall in HL.
  destruct (HL r) as [Hsh Hlen]; [eapply list_elem_of_lookup_2; eauto|].
  unfold Np.ndim. rewrite Hsh, Hlen.
  rewrite variant_rows_length, Hs in Hk. simpl in Hk.
  rewrite length_take, variant_rows_length, Hs. simpl.
  replace (k `min` v) with k by lia.
  assert (Nat.eqb (n * Np.size_of al) (RefEncoder.row_length (RefEncoder.mkSession n v p k)) = true) as ->.
  { apply Nat.eqb_eq. unfold RefEncoder.row_length, p, is_phased, Np.ndim. rewrite Hs.
    destruct Hal as [-> | ->]; simpl; lia. }
  simpl. destruct (forallb supported (data r)); simpl; [|done].
  now replace (Nat.ltb k v) with true by (symmetry; apply Nat.ltb_lt; lia).
Qed.

(** C8, as the claim states it, fails on a call value beyond 32 bits: the
    value 2^32 is outside the hardcall alphabet, yet the conversion to
    32-bit integers turns it into 0 before the reference encoder sees it,
    and the write goes through without an error. *)
Lemma write_pgen_wraps_wide_value :
  RefEncoder.hardcall 4294967296 = false /\
  Np.values (calldata_gt wide_obj) = [4294967296%Z] /\
  write_pgen (RefEncoder.world RefEncoder.hardcall) wide_state =
    (mkState (init wide_obj "x")
       [(EvLog "Writing to x.pgen", None);
        (EvPgenOpen (encode_utf8 "x") 1 1 false, None);
        (EvPgenAppend (mk_ndarray [1] [0%Z]) false, None);
        (EvPgenClose, None)],
     inr tt).
Proof. split; [|split]; reflexivity. Qed.

(** C8 (amended): with call values that all fit in 32 bits, a call data
    array holding a value outside the supported alphabet is refused by the
    reference encoder: rows are appended unchanged and in order up to the
    first row [k] with an unsupported value, whose append raises
    [UnsupportedGenotypeError]; nothing is appended after it, the writer is
    closed, and the write fails. *)
Theorem write_pgen_rejects_unsupported supported st v n al :
  let W := RefEncoder.world supported in
  let w := self st in
  let gt := calldata_gt (snpobj w) in
  let phased := Nat.eqb (Np.ndim gt) 3 in
  let l := Np.size_of (n :: al) in
  Np.wf gt -> shape gt = v :: n :: al -> al = [] \/ al = [2] ->
  (Z.of_nat n <= RefEncoder.max_count)%Z -> (Z.of_nat v <= RefEncoder.max_count)%Z ->
  Forall int32_range (Np.values gt) ->
  Exists (fun z => supported z = false) (Np.values gt) ->
  exists k,
    k < v /\
    Exists (fun z => supported z = false) (take l (drop (k * l) (Np.values gt))) /\
    write_pgen W st =
      (mkState w
         (trace st
          ++ [(EvLog ("Writing to " +:+ to_string (filename w) +:+ ".pgen"), None);
              (EvPgenOpen (encode_utf8 (to_string (filename w))) n v phased, None)]
          ++ map (fun r => (EvPgenAppend r phased, None)) (take k (variant_rows gt))
          ++ [(EvPgenAppend (mk_ndarray [l] (take l (drop (k * l) (Np.values gt)))) phased,
               Some UnsupportedGenotypeError);
              (EvPgenClose, Some IncompleteWriteError)]),
       inl IncompleteWriteError).
Proof.
  intros W w gt phased l Hw Hs Hal Hn Hv Hrange Hbad.
  assert (length al <= 1) as Hlen by (destruct Hal as [-> | ->]; simpl; lia).
  assert (forall k, variant_row gt k = mk_ndarray [l] (take l (drop (k * l) (Np.values gt))))
    as Hrow.
  { intros k. unfold variant_row, row_len. rewrite Hs. simpl. f_equal.
    apply map_wrap32_id. now apply Forall_take, Forall_drop. }
  rewrite (write_pgen_run W st v n al Hs Hlen). fold w gt. fold phased.
  set (h := trace st ++ [(EvLog ("Writing to " +:+ to_string (filename w) +:+ ".pgen"), None)]).
  set (opn := EvPgenOpen (encode_utf8 (to_string (filename w))) n v (is_phased gt)).
  unfold pgen_session.
  assert (raises W h opn = None) as ->.
  { simpl. apply Z.leb_le in Hn, Hv. now rewrite Hn, Hv. }
  assert (RefEncoder.session_of (h ++ [(opn, None)])
          = Some (RefEncoder.mkSession n v (is_phased gt) 0)) as Hsess.
  { now rewrite session_of_app. }
  pose proof (fun k r => ref_append_answer supported (h ++ [(opn, None)]) gt v n al k r
                           Hw Hs Hal Hsess) as Hans.
  cbv zeta in Hans.
  destruct (calls W (h ++ [(opn, None)]) (append_events gt)) as [new o] eqn:Hc.
  destruct o as [e|].
  - pose proof (calls_failed W (append_events gt) (h ++ [(opn, None)]) e) as Hf.
    rewrite Hc in Hf. simpl in Hf.
    destruct (Hf eq_refl) as (k & ev & Hk & -> & Hr). clear Hf.
    unfold append_events in Hk. rewrite list_lookup_fmap in Hk.
    destruct (variant_rows gt !! k) as [r|] eqn:Hrk; [|discriminate].
    injection Hk as <-.
    pose proof (lookup_lt_Some _ _ _ Hrk) as Hlt.
    rewrite variant_rows_length, Hs in Hlt. simpl in Hlt.
    assert (r = mk_ndarray [l] (take l (drop (k * l) (Np.values gt)))) as Hr_eq.
    { unfold variant_rows in Hrk. rewrite Hs in Hrk. simpl in Hrk.
      rewrite list_lookup_fmap, lookup_seq_lt in Hrk by done.
      simpl in Hrk. injection Hrk as <-. apply Hrow. }
    change (raises W) with (RefEncoder.raises supported) in Hr.
    rewrite (Hans k r Hrk) in Hr.
    destruct (forallb supported (data r)) eqn:Hfb; [discriminate|]. injection Hr as <-.
    exists k. split; [done|]. split.
    { apply forallb_false_Exists in Hfb. now rewrite Hr_eq in Hfb. }
    assert (raises W ((h ++ [(opn, None)])
              ++ map (fun ev => (ev, None)) (take k (append_events gt))
              ++ [(EvPgenAppend r (is_phased gt), Some UnsupportedGenotypeError)]) EvPgenClose
            = Some IncompleteWriteError) as ->.
    { simpl. rewrite app_assoc, session_of_app.
      unfold append_events.
      rewrite (session_of_appends _ n v (is_phased gt) _ k Hsess). simpl.
      rewrite length_take, variant_rows_length, Hs. simpl.
      replace (k `min` v) with k by lia.
      now replace (Nat.eqb k v) with false by (symmetry; apply Nat.eqb_neq; lia). }
    simpl. unfold append_events. rewrite firstn_map, map_map, <- Hr_eq.
    unfold h. rewrite <- !app_assoc. reflexivity.
  - exfalso.
    pose proof (calls_returned W (append_events gt) (h ++ [(opn, None)])) as Hret.
    rewrite Hc in Hret. specialize (Hret eq_refl).
    assert (length (Np.values gt) = v * l) as Hdl.
    { rewrite values_length. unfold Np.wf in Hw. rewrite Hw, Hs. reflexivity. }
    destruct (Exists_chunk (fun z => supported z = false) (Np.values gt) v l Hdl Hbad)
      as (k & Hk & HE).
    assert (variant_rows gt !! k = Some (variant_row gt k)) as Hrk.
    { unfold variant_rows. rewrite Hs. simpl.
      now rewrite list_lookup_fmap, lookup_seq_lt by done. }
    specialize (Hret k (EvPgenAppend (variant_row gt k) (is_phased gt))).
    unfold append_events in Hret at 1. rewrite list_lookup_fmap, Hrk in Hret.
    specialize (Hret eq_refl).
    change (raises W) with (RefEncoder.raises supported) in Hret.
    rewrite (Hans k _ Hrk) in Hret.
    rewrite Hrow in Hret. simpl in Hret.
    apply forallb_false_Exists in HE. rewrite HE in Hret.
    discriminate.
Qed.

Lemma write_pgen_rejects_unsupported_witness :
  exists k,
    k < 1 /\
    (write_pgen (RefEncoder.world RefEncoder.hardcall)
       (mkState (init (bare_obj (mk_ndarray [1; 2] [i64 0; i64 7])) "x") [])).2
    = inl IncompleteWriteError.
Proof.
  destruct (write_pgen_rejects_unsupported RefEncoder.hardcall
              (mkState (init (bare_obj (mk_ndarray [1; 2] [i64 0; i64 7])) "x") []) 1 2 [])
    as (k & Hk & _ & Hrun).
  - reflexivity.
  - reflexivity.
  - now left.
  - vm_compute. discriminate.
  - vm_compute. discriminate.
  - do 2 (constructor; [unfold int32_range; simpl; lia|]). constructor.
  - apply Exists_cons_tl, Exists_cons_hd. reflexivity.
  - exists k. split; [exact Hk|]. rewrite Hrun. reflexivity.
Defined.

(** ** Row shapes against the declared counts *)

(** The reference encoder answers no call of a writer session with
    [RowShapeMismatchError] when the call data is two-dimensional or holds
    two alleles per sample. *)
Lemma ref_session_no_mismatch supported h gt v n al fname :
  Np.wf gt -> shape gt = v :: n :: al -> al = [] \/ al = [2] ->
  Forall (fun c => c.2 <> Some RowShapeMismatchError)
    (pgen_session (RefEncoder.world supported) h (EvPgenOpen fname n v (is_phased gt))
                  (append_events gt)).1.
Proof.
  intros Hw Hs Hal. set (W := RefEncoder.world supported).
  set (opn := EvPgenOpen fname n v (is_phased gt)).
  unfold pgen_session.
  destruct (raises W h opn) as [e|] eqn:Ho.
  { simpl. constructor; [|constructor]. simpl. intros [= ->].
    unfold W, opn in Ho. simpl in Ho.
    destruct (_ && _) in Ho; discriminate. }
  assert (RefEncoder.session_of (h ++ [(opn, None)])
          = Some (RefEncoder.mkSession n v (is_phased gt) 0)) as Hsess.
  { now rewrite session_of_app. }
  pose proof (calls_failed W (append_events gt) (h ++ [(opn, None)])) as Hf.
  pose proof (calls_all_returned W (append_events gt) (h ++ [(opn, None)])) as Hall.
  destruct (calls W (h ++ [(opn, None)]) (append_events gt)) as [new o].
  simpl in Hf, Hall. cbv beta iota zeta.
  set (oc := raises W _ EvPgenClose).
  assert (oc <> Some RowShapeMismatchError) as Hoc.
  { unfold oc, W. simpl.
    match goal with |- context [RefEncoder.session_of ?x] =>
      generalize (RefEncoder.session_of x) end.
    intros [s|]; [|discriminate]. destruct (Nat.eqb _ _); discriminate. }
  simpl. constructor; [discriminate|]. apply Forall_app. split; [|now repeat constructor].
  destruct o as [e|].
  - destruct (Hf e eq_refl) as (k & ev & Hk & -> & Hr).
    apply Forall_app. split.
    { apply Forall_forall. intros c Hc. apply list_elem_of_fmap in Hc as (ev' & -> & _).
      discriminate. }
    constructor; [|constructor]. simpl.
    unfold append_events in Hk. rewrite list_lookup_fmap in Hk.
    destruct (variant_rows gt !! k) as [r|] eqn:Hrk; [|discriminate].
    injection Hk as <-.
    change (raises W) with (RefEncoder.raises supported) in Hr.
    rewrite (ref_append_answer supported _ gt v n al k r Hw Hs Hal Hsess Hrk) in Hr.
    destruct (forallb supported (data r)); [discriminate|]. injection Hr as <-. discriminate.
  - rewrite (Hall eq_refl).
    apply Forall_forall. intros c Hc. apply list_elem_of_fmap in Hc as (ev' & -> & _).
    discriminate.
Qed.

(** C10, as the claim states it, fails with three alleles per call: the
    declared sample count is 1 and the row holds the three allele codes of
    the one sample, which the reference encoder refuses for its shape. *)
Lemma write_pgen_triploid_row_refused :
  shape (calldata_gt triploid_obj) = [1; 1; 3] /\
  write_pgen (RefEncoder.world RefEncoder.hardcall) triploid_state =
    (mkState (init triploid_obj "x")
       [(EvLog "Writing to x.pgen", None);
        (EvPgenOpen (encode_utf8 "x") 1 1 true, None);
        (EvPgenAppend (mk_ndarray [3] [0; 1; 2]%Z) true, Some RowShapeMismatchError);
        (EvPgenClose, Some IncompleteWriteError)],
     inl IncompleteWriteError).
Proof. split; reflexivity. Qed.

(** C10 (amended): the sample count declared at open is [num_samples] and
    the phase flag is set exactly for three-dimensional call data; each row
    handed to the binary writer is one-dimensional and holds [num_samples]
    values when the call data is two-dimensional and
    [num_samples * num_alleles] values when it is three-dimensional.  With
    two-dimensional call data, or with two alleles per sample, the reference
    encoder answers no call of the run with [RowShapeMismatchError]. *)
Theorem write_pgen_row_length W supported st v n al :
  let w := self st in
  let gt := calldata_gt (snpobj w) in
  let phased := Nat.eqb (Np.ndim gt) 3 in
  let per_sample := match al with [] => 1 | num_alleles :: _ => num_alleles end in
  Np.wf gt -> shape gt = v :: n :: al -> length al <= 1 ->
  (exists o rest,
     trace (write_pgen W st).1 =
       trace st ++ (EvLog ("Writing to " +:+ to_string (filename w) +:+ ".pgen"), None)
                :: (EvPgenOpen (encode_utf8 (to_string (filename w))) n v phased, o) :: rest /\
     Forall (fun c => match c.1 with
                      | EvPgenAppend r _ =>
                          shape r = [n * per_sample] /\ length (data r) = n * per_sample
                      | EvPgenOpen _ _ _ _ => False
                      | _ => True
                      end) rest) /\
  (al = [] \/ al = [2] ->
   exists new,
     trace (write_pgen (RefEncoder.world supported) st).1 = trace st ++ new /\
     Forall (fun c => c.2 <> Some RowShapeMismatchError) new).
Proof.
  intros w gt phased per_sample Hw Hs Hal. split.
  - destruct (write_pgen_events W st v n al Hw Hs Hal) as (o & rest & Ht & HF).
    exists o, rest. split; [exact Ht|].
    assert (Np.size_of al = per_sample) as <-.
    { destruct al as [|a [|b al]]; simpl in *; lia. }
    eapply Forall_impl; [exact HF|]. intros [ev oo]. unfold session_call. simpl.
    destruct ev; tauto.
  - intros Hal'. rewrite (write_pgen_run _ st v n al Hs Hal). fold w gt. simpl.
    eexists. rewrite <- app_assoc. split; [reflexivity|].
    constructor; [discriminate|]. now apply (ref_session_no_mismatch supported _ gt v n al).
Qed.

Lemma write_pgen_row_length_witness :
  (exists o rest,
     trace (write_pgen quiet_world demo_state).1 =
       [(EvLog "Writing to x.pgen", None); (EvPgenOpen (encode_utf8 "x") 2 2 true, o)] ++ rest /\
     Forall (fun c => match c.1 with
                      | EvPgenAppend r _ => shape r = [4] /\ length (data r) = 4
                      | EvPgenOpen _ _ _ _ => False
                      | _ => True
                      end) rest) /\
  exists new,
    trace (write_pgen (RefEncoder.world RefEncoder.hardcall) demo_state).1 = new /\
    Forall (fun c => c.2 <> Some RowShapeMismatchError) new.
Proof.
  destruct (write_pgen_row_length quiet_world RefEncoder.hardcall demo_state 2 2 [2])
    as [H1 H2]; [reflexivity|reflexivity|simpl; lia|].
  split; [exact H1|]. apply H2. now right.
Defined.

(** ** The text of a data frame against the tab-separated description *)

Lemma append_assoc s t u : (s +:+ t) +:+ u = s +:+ t +:+ u.
Proof. induction s as [|a s IH]; [done|]. rewrite !append_cons. now rewrite IH. Qed.

Lemma append_empty_r s : s +:+ EmptyString = s.
Proof. induction s as [|a s IH]; [done|]. now rewrite append_cons, IH. Qed.

Lemma join_concat sep ws : PyStr.join sep ws = String.concat sep ws.
Proof.
  induction ws as [|w ws IH]; [done|]. simpl. destruct ws as [|w' ws]; [done|].
  now rewrite IH.
Qed.

Lemma cat_concat ls : Polars.cat ls = String.concat EmptyString ls.
Proof.
  induction ls as [|l ls IH]; [done|]. simpl. rewrite IH.
  destruct ls as [|l' ls]; [apply append_empty_r|done].
Qed.

Lemma line_record fields : Polars.line tab fields = Tsv.record fields.
Proof. unfold Polars.line, Tsv.record. now rewrite join_concat. Qed.

Lemma contains_special s :
  forallb (fun c => negb (Tsv.special c)) (list_ascii_of_string s)
  = negb (PyStr.contains tab s || PyStr.contains Polars.quote s
          || PyStr.contains (ascii_of_nat 10) s || PyStr.contains (ascii_of_nat 13) s).
Proof.
  induction s as [|a s IH]; [done|]. simpl. rewrite IH. unfold Tsv.special. simpl.
  change (ascii_of_nat 10) with "010"%char. change (ascii_of_nat 13) with "013"%char.
  change tab with "009"%char. change Polars.quote with "034"%char.
  destruct (Ascii.eqb a "009"), (Ascii.eqb a "010"), (Ascii.eqb a "013"),
    (Ascii.eqb a "034"); simpl; try reflexivity;
    destruct (PyStr.contains "009" s), (PyStr.contains "034" s),
      (PyStr.contains "010" s), (PyStr.contains "013" s); reflexivity.
Qed.

Lemma needs_quoting_plain s : Polars.needs_quoting tab s = negb (Tsv.plain s).
Proof.
  unfold Polars.needs_quoting, Tsv.plain. rewrite contains_special.
  destruct (String.eqb s EmptyString); simpl; [done|]. now rewrite negb_involutive.
Qed.

Lemma double_quotes_flat_map s l :
  string_of_list_ascii
    (flat_map (fun c => if Ascii.eqb c "034" then ["034"; "034"]%char else [c])
              (list_ascii_of_string s) ++ l)
  = Polars.double_quotes s +:+ string_of_list_ascii l.
Proof.
  induction s as [|a s IH]; [done|]. simpl.
  change Polars.quote with "034"%char.
  destruct (Ascii.eqb a "034"); simpl; rewrite IH; now rewrite ?append_cons.
Qed.

Lemma csv_string_text_field s : Polars.csv_string tab s = Tsv.text_field s.
Proof.
  unfold Polars.csv_string, Tsv.text_field. rewrite needs_quoting_plain.
  destruct (Tsv.plain s); simpl; [done|].
  unfold Tsv.quoted. simpl. rewrite double_quotes_flat_map. simpl.
  now rewrite append_cons.
Qed.

Lemma csv_field_field v : Polars.csv_field tab v = Tsv.field v.
Proof. destruct v as [s|z|[|]|]; simpl; try reflexivity. apply csv_string_text_field. Qed.

(** The CSV text of a data frame whose rows are the field lists [rows]. *)
Lemma write_csv_text cols h header rows :
  map (fun c => Polars.csv_string tab c.1) cols = header ->
  map (Polars.row tab (Polars.mkDataFrame cols h)) (seq 0 h) = rows ->
  Polars.write_csv (Polars.mkDataFrame cols h) tab = Tsv.text header rows.
Proof.
  intros <- <-. unfold Polars.write_csv, Tsv.text. simpl.
  rewrite cat_concat, line_record, map_map.
  set (ls := map _ (seq 0 h)).
  replace (map (fun x => Tsv.record (Polars.row tab (Polars.mkDataFrame cols h) x)) (seq 0 h))
    with ls by (apply map_ext; intros i; apply line_record).
  destruct ls; [apply append_empty_r|reflexivity].
Qed.

Lemma map_seq_lookup {A B} (F : nat -> B) (G : A -> B) (l : list A) :
  (forall i x, l !! i = Some x -> F i = G x) ->
  map F (seq 0 (length l)) = map G l.
Proof.
  revert F. induction l as [|x l IH]; intros F HF; simpl; [done|].
  rewrite (HF 0 x eq_refl). f_equal.
  rewrite <- fmap_S_seq, map_map. apply IH. intros i y Hi. now apply (HF (S i)).
Qed.

(** ** The sample file *)

Lemma psam_frame smp :
  Polars.of_dict [("IID", Polars.Values smp); ("SEX", Polars.Scalar (PStr "NA"))]
  = inr (Polars.mkDataFrame [("IID", cells smp);
                             ("SEX", replicate (length (cells smp)) (PStr "NA"))]
                            (length (cells smp))).
Proof.
  unfold Polars.of_dict. simpl. rewrite Nat.max_0_r, Nat.eqb_refl. reflexivity.
Qed.

Lemma psam_csv obj :
  Polars.write_csv
    (Polars.mkDataFrame [("IID", cells (samples obj));
                         ("SEX", replicate (length (cells (samples obj))) (PStr "NA"))]
                        (length (cells (samples obj)))) tab
  = psam_text obj.
Proof.
  unfold psam_text. apply write_csv_text; [reflexivity|].
  apply map_seq_lookup. intros i x Hi.
  unfold Polars.row. simpl. rewrite Hi.
  rewrite lookup_replicate_2 by (eapply lookup_lt_Some; eauto). simpl.
  now rewrite csv_field_field.
Qed.

(** C6: [write_psam] writes, to [<base>.psam], the tab-separated text whose
    first record is the header [IID SEX] and whose further records are one
    per sample, in sample order: the sample's identifier and the constant
    ["NA"]. *)
Theorem write_psam_text W st :
  let w := self st in
  let path := to_string (filename w) +:+ ".psam" in
  exists o,
    (write_psam W st).1 =
      mkState w
        (trace st ++
         [(EvLog ("Writing " +:+ path), None);
          (EvWriteText path
             (Tsv.text ["IID"; "SEX"]
                (map (fun sample => [Tsv.field sample; "NA"]) (cells (samples (snpobj w))))),
           o)]).
Proof.
  intros w path.
  unfold write_psam, mbind, M_bind, get_self, log_info, lift. simpl.
  fold w. rewrite psam_frame, psam_csv. unfold call. simpl.
  eexists. rewrite <- app_assoc. reflexivity.
Qed.

(** ** The variant file *)

Lemma write_pvar_unfold W (vzs : bool) st :
  let w := self st in
  let out := to_string (filename w) +:+ ".pvar" in
  let out := if vzs then out +:+ ".zst" else out in
  let st' := mkState w (trace st ++
               [(EvLog (if vzs then "Writing to " +:+ out +:+ " (compressed)"
                        else "Writing to " +:+ out), None)]) in
  write_pvar W vzs st =
  match pvar_csv (snpobj w) with
  | inl e => (st', inl e)
  | inr text =>
      call W (if vzs then EvWriteBytes out (zstd_compress W (encode_utf8 text))
              else EvWriteText out text) st'
  end.
Proof.
  unfold write_pvar, pvar_csv, mbind, M_bind, get_self, log_info, lift. simpl.
  destruct (Np.column0 _) as [e|alt]; [now destruct vzs|].
  destruct (Polars.of_dict _) as [e|df]; now destruct vzs.
Qed.

Lemma concat_singletons {A} (l : list (list A)) :
  Forall (fun c => length c = 1) l ->
  length (concat l) = length l /\ forall i, concat l !! i = l !! i ≫= head.
Proof.
  induction 1 as [|c l Hc _ [IHl IHi]]; simpl; [split; [done|intros i; done]|].
  destruct c as [|x [|y c]]; try discriminate. simpl. split; [now rewrite IHl|].
  intros [|i]; simpl; [done|apply IHi].
Qed.

(** The column [variants_alt[:, 0]] lists the first allele of every variant. *)
Lemma column0_first_alt obj n k :
  shape (variants_alt obj) = [n; k] -> 0 < k -> Np.wf (variants_alt obj) ->
  exists alt, Np.column0 (variants_alt obj) = inr alt /\ shape alt = [n] /\
              length (data alt) = n /\
              forall i, i < n ->
                data alt !! i = first_alt obj i /\
                first_alt obj i = data (variants_alt obj) !! (i * k) /\
                is_Some (first_alt obj i).
Proof.
  unfold Np.wf, Np.column0, first_alt, Np.getitem. intros Hs Hk Hw. rewrite Hs in *.
  simpl in Hw. rewrite Nat.mul_1_r in Hw.
  replace (Nat.eqb k 0) with false by (symmetry; apply Nat.eqb_neq; lia).
  eexists. split; [reflexivity|]. simpl. split; [done|].
  set (d := data (variants_alt obj)) in *.
  assert (forall i, i < n -> is_Some (d !! (i * k))) as Hd.
  { intros i Hi. apply lookup_lt_is_Some. rewrite Hw. nia. }
  assert (Forall (fun c => length c = 1)
                 (map (fun i => take 1 (drop (i * (k * 1)) d)) (seq 0 n))) as HF.
  { apply Forall_forall. intros c Hc. apply list_elem_of_fmap in Hc as (i & -> & Hi).
    apply elem_of_seq in Hi. rewrite length_take, length_drop, Hw. nia. }
  destruct (concat_singletons _ HF) as [Hlen Hlook].
  split; [now rewrite Hlen, length_map, length_seq|].
  intros i Hi.
  replace (Nat.ltb i n) with true by (symmetry; apply Nat.ltb_lt; lia). simpl.
  rewrite Hlook, list_lookup_fmap, lookup_seq_lt by done. simpl.
  rewrite !Nat.mul_1_r, !head_lookup, !lookup_take_lt, !lookup_drop by lia.
  rewrite !Nat.add_0_r. auto.
Qed.

Lemma pvar_frame obj n k :
  variant_table obj n k ->
  exists alt,
    Np.column0 (variants_alt obj) = inr alt /\
    (forall i, i < n -> data alt !! i = first_alt obj i) /\
    Polars.of_dict
      [("#CHROM", Polars.Values (variants_chrom obj));
       ("POS", Polars.Values (variants_pos obj));
       ("ID", Polars.Values (variants_id obj));
       ("REF", Polars.Values (variants_ref obj));
       ("ALT", Polars.Array alt);
       ("FILTER", Polars.Values (variants_filter_pass obj))]
    = inr (Polars.mkDataFrame
             [("#CHROM", cells (variants_chrom obj)); ("POS", cells (variants_pos obj));
              ("ID", cells (variants_id obj)); ("REF", cells (variants_ref obj));
              ("ALT", map PStr (data alt)); ("FILTER", cells (variants_filter_pass obj))] n).
Proof.
  intros (Hc & Hp & Hi & Hr & Hf & Hs & Hk & Hw).
  destruct (column0_first_alt obj n k Hs Hk Hw) as (alt & Ha & Hsh & Hlen & Hfirst).
  exists alt. split; [exact Ha|]. split; [intros i Hlt; now apply Hfirst|].
  unfold Polars.of_dict, Polars.array_lengths, Polars.one_dimensional, Np.ndim. simpl.
  rewrite Hc, Hp, Hi, Hr, Hf, Hsh. simpl.
  rewrite Nat.max_0_r, !Nat.max_id, Nat.eqb_refl. reflexivity.
Qed.

Lemma pvar_csv_table obj n k :
  variant_table obj n k -> pvar_csv obj = inr (pvar_text obj n).
Proof.
  intros Ht. destruct (pvar_frame obj n k Ht) as (alt & Ha & Hfirst & Hdf).
  unfold pvar_csv. rewrite Ha, Hdf. f_equal. unfold pvar_text.
  apply write_csv_text; [reflexivity|].
  apply map_ext_in. intros i Hin. apply in_seq in Hin.
  unfold Polars.row, pvar_fields. simpl.
  rewrite !csv_field_field, !nth_lookup. do 4 f_equal.
  rewrite list_lookup_fmap, Hfirst by lia.
  destruct (first_alt obj i); simpl; now rewrite ?csv_string_text_field.
Qed.


(** C5: for a variant table of [n] variants, [write_pvar] writes the
    tab-separated text whose first record is the header
    [#CHROM POS ID REF ALT FILTER] and whose further records are one per
    variant, in variant order: the variant's entries of the five columns
    and, as the ALT field, the first allele [variants_alt[i, 0]] of its ALT
    list, whatever further alleles the list holds. *)
Theorem write_pvar_text W st n k :
  let w := self st in
  let obj := snpobj w in
  let path := to_string (filename w) +:+ ".pvar" in
  let alt_field i :=
    match data (variants_alt obj) !! (i * k) with
    | Some allele => Tsv.text_field allele
    | None => EmptyString
    end in
  variant_table obj n k ->
  (exists o,
     (write_pvar W false st).1 =
       mkState w
         (trace st ++
          [(EvLog ("Writing to " +:+ path), None);
           (EvWriteText path
              (Tsv.text ["#CHROM"; "POS"; "ID"; "REF"; "ALT"; "FILTER"]
                 (map (fun i => [Tsv.field (nth i (cells (variants_chrom obj)) PNone);
                                 Tsv.field (nth i (cells (variants_pos obj)) PNone);
                                 Tsv.field (nth i (cells (variants_id obj)) PNone);
                                 Tsv.field (nth i (cells (variants_ref obj)) PNone);
                                 alt_field i;
                                 Tsv.field (nth i (cells (variants_filter_pass obj)) PNone)])
                      (seq 0 n))), o)])) /\
  (forall i, i < n -> is_Some (data (variants_alt obj) !! (i * k))).
Proof.
  intros w obj path alt_field Ht.
  pose proof Ht as (_ & _ & _ & _ & _ & Hs & Hk & Hw).
  destruct (column0_first_alt obj n k Hs Hk Hw) as (alt & _ & _ & _ & Hfirst).
  split.
  - rewrite write_pvar_unfold. fold w obj. rewrite (pvar_csv_table obj n k Ht).
    unfold call. simpl. eexists. rewrite <- app_assoc.
    replace (pvar_text obj n) with
      (Tsv.text ["#CHROM"; "POS"; "ID"; "REF"; "ALT"; "FILTER"]
         (map (fun i => [Tsv.field (nth i (cells (variants_chrom obj)) PNone);
                         Tsv.field (nth i (cells (variants_pos obj)) PNone);
                         Tsv.field (nth i (cells (variants_id obj)) PNone);
                         Tsv.field (nth i (cells (variants_ref obj)) PNone);
                         alt_field i;
                         Tsv.field (nth i (cells (variants_filter_pass obj)) PNone)])
              (seq 0 n))); [reflexivity|].
    unfold pvar_text. apply (f_equal (Tsv.text _)). symmetry. apply map_ext_in. intros i Hin. apply in_seq in Hin.
    unfold pvar_fields, alt_field. destruct (Hfirst i) as (_ & -> & _); [lia|]. reflexivity.
  - intros i Hi. destruct (Hfirst i Hi) as (_ & <- & Hsome). exact Hsome.
Qed.

Lemma write_pvar_text_witness :
  variant_table demo_obj 2 3 /\
  exists o,
    (write_pvar quiet_world false demo_state).1 =
      mkState (init demo_obj "x")
        [(EvLog "Writing to x.pvar", None);
         (EvWriteText "x.pvar"
            (Tsv.text ["#CHROM"; "POS"; "ID"; "REF"; "ALT"; "FILTER"]
               [["1"; "100"; "rs1"; "A"; "G"; "true"];
                ["1"; "200"; "rs2"; "C"; "T"; "true"]]), o)].
Proof.
  assert (variant_table demo_obj 2 3) as Ht.
  { unfold variant_table. simpl. repeat split; try reflexivity. lia. }
  split; [exact Ht|].
  destruct (write_pvar_text quiet_world demo_state 2 3 Ht) as [H _]. exact H.
Defined.

(** ** The whole write *)

Lemma known_suffix_has_name p :
  PyStr.mem (suffix p) file_extensions = true -> with_suffix_empty p <> None.
Proof.
  unfold with_suffix_empty, suffix. intros Hm.
  destruct (String.eqb (name p) EmptyString) eqn:E; [|done].
  apply String.eqb_eq in E. rewrite E in Hm. discriminate.
Qed.

Lemma write_unfold W vzs st :
  write W vzs st = (write_pvar W vzs ;; write_psam W ;; write_pgen W) (settled st).
Proof.
  unfold write at 1. unfold settled, base_of, mbind at 1 2 3, M_bind at 1 2 3, get_self.
  destruct (PyStr.mem (suffix (filename (self st))) file_extensions) eqn:Hm.
  - pose proof (known_suffix_has_name _ Hm) as Hn.
    destruct (with_suffix_empty (filename (self st))); [reflexivity|done].
  - destruct st as [[o f x] h]. reflexivity.
Qed.
Lemma write_pvar_emits W vzs st :
  emits (sidecar_call (to_string (filename (self st))) vzs) (write_pvar W vzs) st.
Proof.
  unfold emits. rewrite write_pvar_unfold. cbv zeta.
  destruct (pvar_csv _) as [e|text]; simpl.
  - split; [done|]. eexists. split; [reflexivity|]. now repeat constructor.
  - split; [done|]. eexists. rewrite <- app_assoc. split; [reflexivity|].
    destruct vzs; (constructor; [done|]); (constructor; [|constructor]);
      unfold sidecar_call; simpl; auto.
Qed.

Lemma write_psam_emits W vzs st :
  emits (sidecar_call (to_string (filename (self st))) vzs) (write_psam W) st.
Proof.
  unfold emits, write_psam, mbind, M_bind, get_self, log_info, lift. simpl.
  rewrite psam_frame. simpl. split; [done|]. eexists. rewrite <- app_assoc.
  split; [reflexivity|]. (constructor; [done|]); (constructor; [|constructor]).
  unfold sidecar_call; simpl; auto.
Qed.

Lemma write_pgen_emits W st :
  emits (pgen_call (to_string (filename (self st)))) (write_pgen W) st.
Proof.
  unfold emits. rewrite write_pgen_unfold. cbv zeta.
  destruct (flatten_calldata _ _) as [e|[[v n] flat]].
  - simpl. split; [done|]. eexists. split; [reflexivity|]. now repeat constructor.
  - set (st' := mkState _ _).
    assert (emits (pgen_call (to_string (filename (self st))))
              (with_writer W (EvPgenOpen (encode_utf8 (to_string (filename (self st)))) n v
                                (is_phased (calldata_gt (snpobj (self st)))))
                 (for_each (seq 0 v) (fun i =>
                    r ← lift (Np.getitem flat i);
                    call W (EvPgenAppend (Np.astype_int32 r)
                              (is_phased (calldata_gt (snpobj (self st))))))))
              st') as [Hs (new & Ht & HQ)].
    { unfold with_writer. apply emits_bind; [now apply emits_call|].
      intros _ st1 _. apply emits_closing; [|done].
      apply emits_for_each. intros i st2. apply emits_bind; [apply emits_lift|].
      intros r st3 _. now apply emits_call. }
    split; [exact Hs|]. exists ((EvLog ("Writing to " +:+ to_string (filename (self st)) +:+ ".pgen"), None) :: new).
    rewrite Ht. unfold st'. simpl. rewrite <- app_assoc. split; [reflexivity|].
    constructor; [done|exact HQ].
Qed.

(** The run of [write], cut where the sidecars are done. *)
Lemma write_phases W vzs st :
  let base := to_string (base_of (filename (self st))) in
  let side := (write_pvar W vzs ;; write_psam W) (settled st) in
  self side.1 = self (settled st) /\
  (exists calls1, trace side.1 = trace st ++ calls1 /\ Forall (sidecar_call base vzs) calls1) /\
  match side.2 with
  | inl e => write W vzs st = (side.1, inl e)
  | inr _ =>
      write W vzs st = write_pgen W side.1 /\
      self (write W vzs st).1 = self (settled st) /\
      exists calls2, trace (write W vzs st).1 = trace side.1 ++ calls2 /\
                     Forall (pgen_call base) calls2
  end.
Proof.
  intros base side.
  assert (emits (sidecar_call base vzs) (write_pvar W vzs ;; write_psam W) (settled st))
    as [Hs Ht].
  { apply emits_bind; [apply write_pvar_emits|].
    intros u st1 Hrun. pose proof (write_pvar_emits W vzs (settled st)) as [Hs1 _].
    rewrite Hrun in Hs1. change (self st1 = self (settled st)) in Hs1. unfold base.
    change (base_of (filename (self st))) with (filename (self (settled st))).
    rewrite <- Hs1. apply write_psam_emits. }
  fold side in Hs, Ht. split; [exact Hs|]. split; [exact Ht|].
  assert (write W vzs st =
          match side.2 with inl e => (side.1, inl e) | inr _ => write_pgen W side.1 end) as Hw.
  { rewrite write_unfold. unfold side, mbind, M_bind.
    destruct (write_pvar W vzs (settled st)) as [st1 [e|[]]]; [done|].
    now destruct (write_psam W st1) as [st2 [e|[]]]. }
  destruct side.2 as [e|[]]; [exact Hw|].
  split; [exact Hw|]. rewrite Hw.
  pose proof (write_pgen_emits W side.1) as [Hs2 Ht2].
  rewrite Hs in Hs2, Ht2. split; [exact Hs2|exact Ht2].
Qed.
Lemma sidecar_path_not_pgen base vzs c p :
  sidecar_call base vzs c -> written_path c.1 = Some p ->
  p <> base /\ p <> base +:+ ".pgen".
Proof.
  unfold sidecar_call. destruct c as [[] o]; simpl; try done.
  - intros [-> | [_ ->]] [= <-]; (split; [now apply append_neq_self|]);
      intros E; apply String.app_inj in E; discriminate.
  - intros [_ ->] [= <-]. rewrite append_assoc.
    split; [now apply append_neq_self|]. intros E. apply String.app_inj in E. discriminate.
Qed.

(** [write] is done with both sidecars before it touches the binary
    writer.  The sidecar calls come first and never name the path the
    binary writer of this run is opened on; if [write_pvar] or [write_psam]
    raises, [write] stops there with that exception and no call to the
    binary writer was made; otherwise the calls that follow write no
    sidecar. *)
Lemma write_sidecars_before_pgen W vzs st :
  let base := to_string (base_of (filename (self st))) in
  let side := (write_pvar W vzs ;; write_psam W) (settled st) in
  exists calls1,
    trace side.1 = trace st ++ calls1 /\
    Forall (fun c => is_pgen c.1 = false /\
                     forall p, written_path c.1 = Some p ->
                               p <> base /\ p <> base +:+ ".pgen") calls1 /\
    match side.2 with
    | inl e => write W vzs st = (side.1, inl e)
    | inr _ =>
        exists calls2,
          trace (write W vzs st).1 = trace st ++ calls1 ++ calls2 /\
          Forall (fun c => written_path c.1 = None) calls2
    end.
Proof.
  intros base side.
  destruct (write_phases W vzs st) as (_ & (calls1 & Ht & HF) & Hrest).
  fold side in Ht, Hrest. fold base in HF, Hrest.
  exists calls1. split; [exact Ht|]. split.
  - eapply Forall_impl; [exact HF|]. intros c Hc. split.
    + unfold sidecar_call in Hc. now destruct c as [[] o].
    + intros p. now apply (sidecar_path_not_pgen base vzs).
  - destruct side.2 as [e|[]]; [exact Hrest|].
    destruct Hrest as (_ & _ & calls2 & Ht2 & HF2).
    exists calls2. rewrite Ht2, Ht, <- app_assoc. split; [done|].
    eapply Forall_impl; [exact HF2|]. intros c Hc.
    unfold pgen_call in Hc. now destruct c as [[] o].
Qed.

Lemma write_self W vzs st : self (write W vzs st).1 = self (settled st).
Proof.
  destruct (write_phases W vzs st) as (Hs & _ & Hrest).
  destruct (_ .2) as [e|[]].
  - now rewrite Hrest.
  - now destruct Hrest as (_ & -> & _).
Qed.

(** C1 (the code at the claim's three names): whatever the world and the
    genotype object, [write] settles on the base ["x"] for ["x"] and for
    ["x.pgen"], but keeps ["x.pvar.zst"] whole: [Path.suffix] is [".zst"]
    there, which is not a known suffix. *)
Theorem write_base_of_three_names W vzs obj :
  let base fname := to_string (filename (self (run (write W vzs) obj fname).1)) in
  base "x" = "x" /\ base "x.pgen" = "x" /\ base "x.pvar.zst" = "x.pvar.zst".
Proof.
  intros base. unfold base, run. rewrite !write_self. repeat split; reflexivity.
Qed.

Lemma write_trace_paths W vzs st :
  let base := to_string (base_of (filename (self st))) in
  exists new, trace (write W vzs st).1 = trace st ++ new /\
    Forall (fun c => sidecar_call base vzs c \/ (is_pgen c.1 = true /\ pgen_call base c)
                     \/ exists msg, c.1 = EvLog msg) new.
Proof.
  intros base.
  destruct (write_phases W vzs st) as (_ & (calls1 & Ht & HF) & Hrest). fold base in HF, Hrest.
  destruct (_ .2) as [e|[]].
  - rewrite Hrest. exists calls1. split; [exact Ht|].
    eapply Forall_impl; [exact HF|]. auto.
  - destruct Hrest as (_ & _ & calls2 & Ht2 & HF2).
    exists (calls1 ++ calls2). rewrite Ht2, Ht, <- app_assoc. split; [done|].
    apply Forall_app. split.
    + eapply Forall_impl; [exact HF|]. auto.
    + eapply Forall_impl; [exact HF2|]. intros [ev o] Hc. unfold pgen_call in Hc.
      destruct ev; simpl in *; try done; eauto.
Qed.

(** C2 (what the code does): the sidecars go to [<base>.pvar] (or
    [<base>.pvar.zst]) and [<base>.psam], but the binary writer is opened on
    the bare [<base>], never on [<base>.pgen], although the log line written
    just before names [<base>.pgen]; both calls are seen on the demo object
    written to ["x"]. *)
Theorem write_opens_pgen_on_bare_base W vzs obj fname :
  let base := to_string (base_of (of_string fname)) in
  Forall (fun c => match c.1 with
                   | EvPgenOpen f _ _ _ =>
                       f = encode_utf8 base /\ f <> encode_utf8 (base +:+ ".pgen")
                   | EvWriteText p _ =>
                       p = base +:+ ".psam" \/ (vzs = false /\ p = base +:+ ".pvar")
                   | EvWriteBytes p _ => vzs = true /\ p = (base +:+ ".pvar") +:+ ".zst"
                   | _ => True
                   end) (trace (run (write W vzs) obj fname).1) /\
  (EvLog "Writing to x.pgen", None) ∈ trace (run (write quiet_world false) demo_obj "x").1 /\
  (EvPgenOpen (encode_utf8 "x") 2 2 true, None)
    ∈ trace (run (write quiet_world false) demo_obj "x").1.
Proof.
  intros base. split; [|split].
  - unfold run. destruct (write_trace_paths W vzs (mkState (init obj fname) []))
      as (new & -> & HF). simpl in *. fold base in HF.
    eapply Forall_impl; [exact HF|]. intros [ev o].
    unfold sidecar_call, pgen_call. simpl.
    intros [H | [[Hp H] | [msg ->]]]; [destruct ev; tauto| |done].
    destruct ev; try done. subst. split; [done|].
    intros E. symmetry in E. revert E. now apply encode_utf8_append_neq.
  - vm_compute. do 4 apply list_elem_of_further. apply list_elem_of_here.
  - vm_compute. do 5 apply list_elem_of_further. apply list_elem_of_here.
Qed.

Lemma string_app_inj_tail s1 s2 t1 t2 :
  String.length t1 = String.length t2 -> s1 +:+ t1 = s2 +:+ t2 -> t1 = t2.
Proof.
  revert s2. induction s1 as [|a s1 IH]; intros [|b s2] Hlen E.
  - exact E.
  - exfalso. change (t1 = String b (s2 +:+ t2)) in E. apply (f_equal String.length) in E.
    simpl in E. rewrite string_length_append in E. lia.
  - exfalso. change (String a (s1 +:+ t1) = t2) in E. apply (f_equal String.length) in E.
    simpl in E. rewrite string_length_append in E. lia.
  - rewrite !append_cons in E. injection E as _ E. now apply (IH s2).
Qed.

(** No sidecar file, whatever the base, has a name that ends in [.pgen]. *)
Lemma sidecar_path_not_pgen_named base vzs c p b :
  sidecar_call base vzs c -> written_path c.1 = Some p -> p <> b +:+ ".pgen".
Proof.
  unfold sidecar_call. destruct c as [[] o]; simpl; try done.
  - intros [-> | [_ ->]] [= <-] E.
    + change (base +:+ "." +:+ "psam" = b +:+ "." +:+ "pgen") in E.
      rewrite <- !append_assoc in E. apply string_app_inj_tail in E; [discriminate|reflexivity].
    + change (base +:+ "." +:+ "pvar" = b +:+ "." +:+ "pgen") in E.
      rewrite <- !append_assoc in E. apply string_app_inj_tail in E; [discriminate|reflexivity].
  - intros [_ ->] [= <-] E.
    change ((base +:+ ".pvar") +:+ ".zst" = b +:+ "." +:+ "pgen") in E.
    rewrite <- (append_assoc b) in E. apply string_app_inj_tail in E; [discriminate|reflexivity].
Qed.

(** C9 (what the code does): within one [write] the sidecars come first and
    a sidecar exception ends the write before the binary writer is touched.
    But the binary writer is opened on the bare base, and [write] keeps the
    stripped path in the object, so a binary file that was written and
    closed can carry the name of a sidecar of a later [write]: on a writer
    created for ["x.pvar.pgen"], the first [write] opens and closes the
    binary file ["x.pvar"], and the second [write] writes the variant text
    to ["x.pvar"]; when that sidecar write fails, the closed binary file
    is the file it failed on.  No sidecar has a name ending in [.pgen], so
    this cannot happen to a binary file named [<base>.pgen]. *)
Theorem write_twice_hits_closed_pgen :
  (forall W vzs st,
     let side := (write_pvar W vzs ;; write_psam W) (settled st) in
     exists calls1,
       trace side.1 = trace st ++ calls1 /\
       Forall (fun c => is_pgen c.1 = false /\
                        forall p b, written_path c.1 = Some p -> p <> b +:+ ".pgen") calls1 /\
       match side.2 with
       | inl e => write W vzs st = (side.1, inl e)
       | inr _ =>
           exists calls2,
             trace (write W vzs st).1 = trace st ++ calls1 ++ calls2 /\
             Forall (fun c => written_path c.1 = None) calls2
       end) /\
  let first := run (write late_failure_world false) demo_obj "x.pvar.pgen" in
  let second := write late_failure_world false first.1 in
  first.2 = inr tt /\
  second.2 = inl OSError /\
  trace second.1 =
    [(EvLog "Writing to x.pvar.pvar", None);
     (EvWriteText "x.pvar.pvar" (pvar_text demo_obj 2), None);
     (EvLog "Writing x.pvar.psam", None);
     (EvWriteText "x.pvar.psam" (psam_text demo_obj), None);
     (EvLog "Writing to x.pvar.pgen", None);
     (EvPgenOpen (encode_utf8 "x.pvar") 2 2 true, None);
     (EvPgenAppend (mk_ndarray [4] [0; 0; 1; 1]%Z) true, None);
     (EvPgenAppend (mk_ndarray [4] [0; 1; 1; 0]%Z) true, None);
     (EvPgenClose, None);
     (EvLog "Writing to x.pvar", None);
     (EvWriteText "x.pvar" (pvar_text demo_obj 2), Some OSError)].
Proof.
  split.
  - intros W vzs st side.
    destruct (write_phases W vzs st) as (_ & (calls1 & Ht & HF) & _).
    destruct (write_sidecars_before_pgen W vzs st) as (calls1' & Ht' & _ & Hrest).
    fold side in Ht, Ht', Hrest. rewrite Ht in Ht'. apply app_inv_head in Ht'. subst calls1'.
    exists calls1. split; [exact Ht|]. split; [|exact Hrest].
    eapply Forall_impl; [exact HF|]. intros c Hc. split.
    + unfold sidecar_call in Hc. now destruct c as [[] o].
    + intros p b Hp. exact (sidecar_path_not_pgen_named _ vzs c p b Hc Hp).
  - vm_compute. repeat split.
Qed.

(** ** Worked examples *)

(** The variant table of the demo object: the second and third alleles of
    each ALT list are left out. *)
Example demo_pvar_csv :
  pvar_csv demo_obj =
  inr (Tsv.text ["#CHROM"; "POS"; "ID"; "REF"; "ALT"; "FILTER"]
                [["1"; "100"; "rs1"; "A"; "G"; "true"];
                 ["1"; "200"; "rs2"; "C"; "T"; "true"]]).
Proof. reflexivity. Qed.

(** The text itself, character by character. *)
Example demo_pvar_characters :
  pvar_text demo_obj 2 =
  String.concat (String "010" EmptyString)
    [String.concat (String "009" EmptyString) ["#CHROM"; "POS"; "ID"; "REF"; "ALT"; "FILTER"];
     String.concat (String "009" EmptyString) ["1"; "100"; "rs1"; "A"; "G"; "true"];
     String.concat (String "009" EmptyString) ["1"; "200"; "rs2"; "C"; "T"; "true"];
     EmptyString].
Proof. reflexivity. Qed.

(** A field with a tab or a quote is written between quotes, its quotes
    doubled; an empty string as two quotes. *)
Example quoted_fields :
  Polars.csv_string tab (String "a" (String "009" "b")) =
    String "034" (String "a" (String "009" (String "b" (String "034" EmptyString)))) /\
  Polars.csv_string tab (String "a" (String "034" "b")) =
    String "034" (String "a" (String "034" (String "034" (String "b" (String "034" EmptyString))))) /\
  Polars.csv_string tab EmptyString = String "034" (String "034" EmptyString).
Proof. repeat split. Qed.

(** The bytes handed to the compressor are the bytes of the text in UTF-8:
    two bytes for a letter with an accent. *)
Example utf8_bytes :
  encode_utf8 "né" = [Byte.x6e; Byte.xc3; Byte.xa9].
Proof. reflexivity. Qed.

(** The whole write of the demo object under the name ["out/x.pgen"]. *)
Example demo_write :
  trace (run (write quiet_world false) demo_obj "out/x.pgen").1 =
  [(EvLog "Writing to out/x.pvar", None);
   (EvWriteText "out/x.pvar"
      (Tsv.text ["#CHROM"; "POS"; "ID"; "REF"; "ALT"; "FILTER"]
                [["1"; "100"; "rs1"; "A"; "G"; "true"];
                 ["1"; "200"; "rs2"; "C"; "T"; "true"]]), None);
   (EvLog "Writing out/x.psam", None);
   (EvWriteText "out/x.psam" (Tsv.text ["IID"; "SEX"] [["s1"; "NA"]; ["s2"; "NA"]]), None);
   (EvLog "Writing to out/x.pgen", None);
   (EvPgenOpen (encode_utf8 "out/x") 2 2 true, None);
   (EvPgenAppend (mk_ndarray [4] [0; 0; 1; 1]%Z) true, None);
   (EvPgenAppend (mk_ndarray [4] [0; 1; 1; 0]%Z) true, None);
   (EvPgenClose, None)].
Proof. reflexivity. Qed.

(** Two samples, one variant, unphased, row [[0; 1]]: the reference encoder
    is opened for two samples and one variant and receives that one row. *)
Example unphased_scenario :
  trace (write_pgen (RefEncoder.world RefEncoder.hardcall)
           (mkState (init (bare_obj (mk_ndarray [1; 2] [i64 0; i64 1])) "x") [])).1 =
  [(EvLog "Writing to x.pgen", None);
   (EvPgenOpen (encode_utf8 "x") 2 1 false, None);
   (EvPgenAppend (mk_ndarray [2] [0; 1]%Z) false, None);
   (EvPgenClose, None)].
Proof. reflexivity. Qed.

(** A call data array of rank one is refused before the writer is opened. *)
Example rank_one_refused :
  write_pgen quiet_world
    (mkState (init (bare_obj (mk_ndarray [2] [i64 0; i64 1])) "x") []) =
  (mkState (init (bare_obj (mk_ndarray [2] [i64 0; i64 1])) "x")
           [(EvLog "Writing to x.pgen", None)],
   inl ValueError).
Proof. reflexivity. Qed.

(** An ALT array of rank three is sliced to a table, which the data frame
    refuses as a column. *)
Example alt_rank_three_refused :
  Np.column0 (mk_ndarray [1; 2; 2] ["G"; "T"; "C"; "A"]) = inr (mk_ndarray [1; 2] ["G"; "T"]) /\
  pvar_csv (mkSNPObject (mk_ndarray [1; 1] [i64 0]) (StrArray ["s1"])
              (StrArray ["1"]) (IntArray [i64 100]) (StrArray ["rs1"]) (StrArray ["A"])
              (mk_ndarray [1; 2; 2] ["G"; "T"; "C"; "A"]) (BoolArray [true]))
  = inl ShapeError.
Proof. split; reflexivity. Qed.

(** Stripping happens once per [write]: a doubled suffix loses one copy. *)
Example doubled_suffix :
  to_string (base_of (of_string "x.pgen.pgen")) = "x.pgen".
Proof. reflexivity. Qed.

(** * Further properties of the writer *)

(** ** Filename derivation *)

Lemma take_drop_string i s : PyStr.take i s +:+ PyStr.drop i s = s.
Proof.
  revert s. induction i as [|i IH]; intros [|a s]; simpl; try done.
  rewrite append_cons. now rewrite IH.
Qed.

Lemma drop_length i s : i <= String.length s -> String.length (PyStr.drop i s) = String.length s - i.
Proof.
  revert s. induction i as [|i IH]; intros [|a s]; simpl; intros H; try done; try lia.
  apply IH. lia.
Qed.

Lemma rfind_lt c s i : PyStr.rfind c s = Some i -> i < String.length s.
Proof.
  revert i. induction s as [|a s IH]; intros i; simpl; [discriminate|].
  destruct (PyStr.rfind c s) as [j|].
  - intros [= <-]. specialize (IH j eq_refl). lia.
  - destruct (Ascii.eqb a c); [|discriminate]. intros [= <-]. lia.
Qed.

(** A name is its stem followed by its suffix. *)
Lemma name_stem_suffix nm :
  PyStr.take (String.length nm - String.length (name_suffix nm)) nm +:+ name_suffix nm = nm.
Proof.
  unfold name_suffix. destruct (PyStr.rfind "." nm) as [i|] eqn:Hi.
  - destruct (_ && _).
    + pose proof (rfind_lt _ _ _ Hi). rewrite drop_length by lia.
      replace (String.length nm - (String.length nm - i)) with i by lia.
      apply take_drop_string.
    + simpl. rewrite Nat.sub_0_r. rewrite <- (take_drop_string (String.length nm) nm) at 3.
      f_equal. clear. induction nm; simpl; congruence.
  - simpl. rewrite Nat.sub_0_r. rewrite <- (take_drop_string (String.length nm) nm) at 3.
    f_equal. clear. induction nm; simpl; congruence.
Qed.

Lemma join_snoc_append sep ps a b :
  PyStr.join sep (ps ++ [a]) +:+ b = PyStr.join sep (ps ++ [a +:+ b]).
Proof.
  induction ps as [|p ps IH]; simpl; [done|].
  destruct (ps ++ [a]) as [|x xs] eqn:E; [now destruct ps|].
  destruct (ps ++ [a +:+ b]) as [|y ys] eqn:E'; [now destruct ps|].
  rewrite !append_assoc. now rewrite IH.
Qed.

Lemma join_length_last sep ps a :
  String.length a <= String.length (PyStr.join sep (ps ++ [a])).
Proof.
  induction ps as [|p ps IH]; simpl; [done|].
  destruct (ps ++ [a]) as [|x xs] eqn:E; [now destruct ps|].
  rewrite !string_length_append. lia.
Qed.

Lemma root_join_nonempty r sep ps a :
  a <> EmptyString -> String.eqb (r +:+ PyStr.join sep (ps ++ [a])) EmptyString = false.
Proof.
  intros Ha. apply String.eqb_neq. intros H. apply (f_equal String.length) in H.
  rewrite string_length_append in H. pose proof (join_length_last sep ps a).
  destruct a; [done|]. simpl in *. lia.
Qed.

Lemma known_suffix_nonempty x : PyStr.mem x file_extensions = true -> x <> EmptyString.
Proof. intros H ->. discriminate. Qed.

(** X1: when [write] strips a suffix it removes exactly that suffix from the
    end of the path: the settled base followed by the suffix is the path as
    given (in its normal form). *)
Theorem base_of_strips_exactly_the_suffix p :
  PyStr.mem (suffix p) file_extensions = true ->
  to_string (base_of p) +:+ suffix p = to_string p.
Proof.
  intros Hm. pose proof (known_suffix_nonempty _ Hm) as Hne.
  unfold base_of. rewrite Hm. unfold with_suffix_empty.
  assert (name p <> EmptyString) as Hname.
  { intros E. apply Hne. unfold suffix. now rewrite E. }
  replace (String.eqb (name p) EmptyString) with false
    by (symmetry; now apply String.eqb_neq).
  assert (parts p <> []) as Hparts.
  { intros E. apply Hname. unfold name. now rewrite E. }
  set (stem := PyStr.take (String.length (name p) - String.length (suffix p)) (name p)).
  assert (stem +:+ suffix p = name p) as Hstem by apply name_stem_suffix.
  assert (stem <> EmptyString) as Hstem_ne.
  { intros E. rewrite E in Hstem. change (suffix p = name p) in Hstem.
    unfold suffix, name_suffix in Hstem, Hne.
    destruct (PyStr.rfind "." (name p)) as [i|] eqn:Hi; [|done].
    destruct (Nat.ltb 0 i) eqn:H0; simpl in *; [|done].
    destruct (Nat.ltb i (String.length (name p) - 1)) eqn:H1; [|done].
    apply Nat.ltb_lt in H0. pose proof (rfind_lt _ _ _ Hi) as Hlt.
    apply (f_equal String.length) in Hstem. rewrite drop_length in Hstem by lia. lia. }
  pose proof (app_removelast_last EmptyString Hparts) as Hlast. fold (name p) in Hlast.
  unfold to_string. simpl. set (rl := List.removelast (parts p)) in *.
  rewrite Hlast.
  rewrite (root_join_nonempty (root p) "/" rl stem Hstem_ne).
  rewrite (root_join_nonempty (root p) "/" rl (name p) Hname).
  rewrite append_assoc, join_snoc_append. now rewrite Hstem.
Qed.

Lemma base_of_strips_exactly_the_suffix_witness :
  to_string (base_of (of_string "/data//run1/./cohort.v2.psam")) +:+ ".psam"
  = "/data/run1/cohort.v2.psam".
Proof.
  exact (base_of_strips_exactly_the_suffix (of_string "/data//run1/./cohort.v2.psam") eq_refl).
Defined.

(** X2: [write] strips the name exactly when its last suffix is [.pgen],
    [.psam] or [.pvar]; no name, whatever it ends in, matches the entry
    [.pvar.zst], and every other path is kept as it is. *)
Theorem known_suffix_is_one_of_three p :
  (PyStr.mem (suffix p) file_extensions = true <->
   suffix p = ".pgen" \/ suffix p = ".psam" \/ suffix p = ".pvar") /\
  (PyStr.mem (suffix p) file_extensions = false -> base_of p = p).
Proof.
  split.
  - unfold PyStr.mem, file_extensions. simpl.
    rewrite orb_false_r, !orb_true_iff, !String.eqb_eq.
    pose proof (suffix_never_pvar_zst p). tauto.
  - intros H. unfold base_of. now rewrite H.
Qed.

(** ** The object after a write *)

(** X3: [write] never touches the genotype object; whatever the world does
    and whether or not the write succeeds, it leaves the writer with the
    stripped path and the extension field set, so that a second [write] on
    the same object strips one more known suffix. *)
Theorem write_leaves_stripped_path W vzs vzs' st :
  let once := (write W vzs st).1 in
  let twice := (write W vzs' once).1 in
  self once = mkPGENWriter (snpobj (self st)) (base_of (filename (self st))) (Some ".pgen") /\
  self twice = mkPGENWriter (snpobj (self st)) (base_of (base_of (filename (self st))))
                            (Some ".pgen").
Proof.
  intros once twice. assert (self once = self (settled st)) as H1 by apply write_self.
  split; [exact H1|]. unfold twice. rewrite write_self. unfold settled. now rewrite H1.
Qed.

(** ** Failures of the variant table *)

Lemma write_aborts_with_pvar W vzs st e :
  pvar_csv (snpobj (self st)) = inl e ->
  write W vzs st =
    (mkState (self (settled st))
       (trace st ++ [(EvLog (if vzs
                             then "Writing to " +:+ ((to_string (base_of (filename (self st))) +:+ ".pvar") +:+ ".zst") +:+ " (compressed)"
                             else "Writing to " +:+ (to_string (base_of (filename (self st))) +:+ ".pvar")), None)]),
     inl e).
Proof.
  intros He. rewrite write_unfold. unfold mbind at 1, M_bind at 1.
  rewrite write_pvar_unfold. cbv zeta.
  change (snpobj (self (settled st))) with (snpobj (self st)). rewrite He.
  now destruct vzs.
Qed.

Lemma pvar_csv_length_mismatch obj n k :
  shape (variants_alt obj) = [n; k] -> 0 < k -> Np.wf (variants_alt obj) ->
  ~ (length (variants_chrom obj) = n /\ length (variants_pos obj) = n /\
     length (variants_id obj) = n /\ length (variants_ref obj) = n /\
     length (variants_filter_pass obj) = n) ->
  pvar_csv obj = inl ShapeError.
Proof.
  intros Hs Hk Hw Hne.
  destruct (column0_first_alt obj n k Hs Hk Hw) as (alt & Ha & Hsh & _).
  unfold pvar_csv. rewrite Ha.
  unfold Polars.of_dict, Polars.array_lengths, Polars.one_dimensional, Np.ndim. simpl.
  rewrite Hsh. simpl.
  destruct (_ && _) eqn:E; [|done]. exfalso. apply Hne.
  rewrite !andb_true_iff, !Nat.eqb_eq in E. lia.
Qed.

(** X4: when the variant columns do not all have as many entries as the ALT
    array has rows, [write] fails with the data frame's [ShapeError] after
    its first log line: no file is written and neither the sample file nor
    the binary writer is reached. *)
Theorem write_refuses_unequal_columns W vzs st n k :
  let obj := snpobj (self st) in
  shape (variants_alt obj) = [n; k] -> 0 < k -> Np.wf (variants_alt obj) ->
  ~ (length (variants_chrom obj) = n /\ length (variants_pos obj) = n /\
     length (variants_id obj) = n /\ length (variants_ref obj) = n /\
     length (variants_filter_pass obj) = n) ->
  (write W vzs st).2 = inl ShapeError /\
  exists msg, trace (write W vzs st).1 = trace st ++ [(EvLog msg, None)].
Proof.
  intros obj Hs Hk Hw Hne.
  rewrite (write_aborts_with_pvar W vzs st ShapeError (pvar_csv_length_mismatch obj n k Hs Hk Hw Hne)).
  split; [reflexivity|]. eexists. reflexivity.
Qed.

Lemma write_refuses_unequal_columns_witness :
  (run (write quiet_world false)
       (mkSNPObject (mk_ndarray [1; 2] [i64 0; i64 1]) (StrArray ["s1"; "s2"])
          (StrArray ["1"]) (IntArray [i64 100; i64 200]) (StrArray ["rs1"]) (StrArray ["A"])
          (mk_ndarray [1; 1] ["G"]) (BoolArray [true])) "x").2 = inl ShapeError.
Proof.
  apply (write_refuses_unequal_columns quiet_world false
           (mkState (init (mkSNPObject (mk_ndarray [1; 2] [i64 0; i64 1]) (StrArray ["s1"; "s2"])
              (StrArray ["1"]) (IntArray [i64 100; i64 200]) (StrArray ["rs1"])
              (StrArray ["A"]) (mk_ndarray [1; 1] ["G"]) (BoolArray [true])) "x") []) 1 1);
    [reflexivity|lia|reflexivity|].
  simpl. intros (_ & H & _). discriminate H.
Defined.

(** X5: an ALT array without a column to take the first allele from (no
    allele axis, or an allele axis of length zero) makes [write] fail with
    [IndexError] after its first log line, before any file is written. *)
Theorem write_refuses_missing_alt_column W vzs st :
  let alt := variants_alt (snpobj (self st)) in
  Np.ndim alt <= 1 \/ (exists n, shape alt = [n; 0]) ->
  (write W vzs st).2 = inl IndexError /\
  exists msg, trace (write W vzs st).1 = trace st ++ [(EvLog msg, None)].
Proof.
  intros alt Halt.
  assert (pvar_csv (snpobj (self st)) = inl IndexError) as He.
  { unfold pvar_csv, Np.column0. subst alt. unfold Np.ndim in Halt.
    destruct Halt as [H | [n H]].
    - destruct (shape _) as [|a [|b sh]]; simpl in H; [done|done|lia].
    - now rewrite H. }
  rewrite (write_aborts_with_pvar W vzs st IndexError He).
  split; [reflexivity|]. eexists. reflexivity.
Qed.

Lemma write_refuses_missing_alt_column_witness :
  (run (write quiet_world true)
       (mkSNPObject (mk_ndarray [1; 2] [i64 0; i64 1]) (StrArray ["s1"; "s2"])
          (StrArray ["1"]) (IntArray [i64 100]) (StrArray ["rs1"]) (StrArray ["A"])
          (mk_ndarray [1] ["G"]) (BoolArray [true])) "x").2 = inl IndexError.
Proof.
  apply (write_refuses_missing_alt_column quiet_world true
           (mkState (init (mkSNPObject (mk_ndarray [1; 2] [i64 0; i64 1]) (StrArray ["s1"; "s2"])
              (StrArray ["1"]) (IntArray [i64 100]) (StrArray ["rs1"]) (StrArray ["A"])
              (mk_ndarray [1] ["G"]) (BoolArray [true])) "x") [])).
  left. apply le_n.
Defined.

(** ** The session with the binary writer *)

(** X6: once the binary writer is open, [write_pgen] closes it on every way
    out: the calls after a successful open are appends only, followed by
    exactly one close, also when an append raises; an exception of the close
    is the one [write_pgen] raises.  When the open itself raises, nothing is
    appended or closed. *)
Theorem write_pgen_closes_opened_writer W st v n al :
  let w := self st in
  let gt := calldata_gt (snpobj w) in
  let intro := (EvLog ("Writing to " +:+ to_string (filename w) +:+ ".pgen"), None) in
  let opening := EvPgenOpen (encode_utf8 (to_string (filename w))) n v (Nat.eqb (Np.ndim gt) 3) in
  shape gt = v :: n :: al -> length al <= 1 ->
  exists o body,
    trace (write_pgen W st).1 = trace st ++ intro :: (opening, o) :: body /\
    match o with
    | Some e => body = [] /\ (write_pgen W st).2 = inl e
    | None =>
        exists apps oc,
          body = apps ++ [(EvPgenClose, oc)] /\
          Forall (fun c => exists r q, c.1 = EvPgenAppend r q) apps /\
          (forall e, oc = Some e -> (write_pgen W st).2 = inl e)
    end.
Proof.
  intros w gt intro opening Hs Hal. rewrite (write_pgen_run W st v n al Hs Hal).
  fold w gt. fold (is_phased gt). simpl. unfold pgen_session.
  destruct (raises W _ (EvPgenOpen _ _ _ _)) as [e|] eqn:Ho.
  - exists (Some e), []. simpl. rewrite <- app_assoc. auto.
  - match goal with |- context [calls W ?h ?evs] =>
      pose proof (calls_Forall W (fun c => exists r q, c.1 = EvPgenAppend r q) evs h) as HF;
      destruct (calls W h evs) as [new oo] end.
    simpl in *. exists None. eexists. rewrite <- app_assoc. split; [reflexivity|].
    eexists new, _. split; [reflexivity|]. split.
    + apply HF. intros ev o Hev. unfold append_events in Hev.
      apply list_elem_of_fmap in Hev as (r & -> & _). simpl. eauto.
    + now intros e ->.
Qed.

Lemma write_pgen_closes_opened_writer_witness :
  exists body,
    trace (write_pgen (failing_world 3) demo_state).1 =
      (EvLog "Writing to x.pgen", None) :: (EvPgenOpen (encode_utf8 "x") 2 2 true, None) :: body /\
    exists apps oc, body = apps ++ [(EvPgenClose, oc)].
Proof.
  destruct (write_pgen_closes_opened_writer (failing_world 3) demo_state 2 2 [2])
    as (o & body & Ht & Hb); [reflexivity|simpl; lia|].
  exists body. assert (o = None) as ->.
  { vm_compute in Ht. now injection Ht as <- _. }
  split; [exact Ht|]. destruct Hb as (apps & oc & Hb & _). now exists apps, oc.
Defined.

(** X7: an append that raises is the last append.  The rows before it were
    accepted in row order, the failing row is the next row of the call data,
    only the close follows, and [write_pgen] raises the exception of the
    close if there is one, else the one of the append. *)
Theorem write_pgen_stops_at_failed_append W st v n al new r q e :
  let w := self st in
  let gt := calldata_gt (snpobj w) in
  let phased := Nat.eqb (Np.ndim gt) 3 in
  shape gt = v :: n :: al -> length al <= 1 ->
  trace (write_pgen W st).1 = trace st ++ new ->
  (EvPgenAppend r q, Some e) ∈ new ->
  exists k oc,
    variant_rows gt !! k = Some r /\
    new = [(EvLog ("Writing to " +:+ to_string (filename w) +:+ ".pgen"), None);
           (EvPgenOpen (encode_utf8 (to_string (filename w))) n v phased, None)]
          ++ map (fun r' => (EvPgenAppend r' phased, None)) (take k (variant_rows gt))
          ++ [(EvPgenAppend r q, Some e); (EvPgenClose, oc)] /\
    (write_pgen W st).2 = inl (default e oc).
Proof.
  intros w gt phased Hs Hal Ht Hin. rewrite (write_pgen_run W st v n al Hs Hal) in Ht |- *.
  fold w gt in Ht |- *. fold (is_phased gt) in *. simpl in Ht |- *.
  rewrite <- app_assoc in Ht. apply app_inv_head in Ht. subst new.
  unfold pgen_session in *.
  destruct (raises W _ (EvPgenOpen _ _ _ _)) as [e0|] eqn:Ho.
  - simpl in Hin. apply elem_of_cons in Hin as [Hin|Hin]; [discriminate|].
    apply elem_of_cons in Hin as [Hin|Hin]; [discriminate|]. now apply elem_of_nil in Hin.
  - match type of Hin with context [calls W ?h ?evs] =>
      pose proof (calls_all_returned W evs h) as Hall;
      pose proof (calls_failed W evs h) as Hfail;
      destruct (calls W h evs) as [new oo] end.
    simpl in *.
    apply elem_of_cons in Hin as [Hin|Hin]; [discriminate|].
    apply elem_of_cons in Hin as [Hin|Hin]; [discriminate|].
    apply elem_of_app in Hin as [Hin|Hin].
    2:{ apply elem_of_cons in Hin as [Hin|Hin]; [discriminate|]. now apply elem_of_nil in Hin. }
    destruct oo as [e'|].
    + destruct (Hfail e' eq_refl) as (k & ev & Hk & -> & _).
      apply elem_of_app in Hin as [Hin|Hin].
      { apply list_elem_of_fmap in Hin as (ev' & Hev & _). discriminate. }
      apply elem_of_cons in Hin as [Hin|Hin]; [|now apply elem_of_nil in Hin].
      injection Hin as <- <-.
      unfold append_events in Hk. rewrite list_lookup_fmap in Hk.
      destruct (variant_rows gt !! k) as [r'|] eqn:Hr; [|discriminate].
      injection Hk as <- <-.
      match goal with |- context [raises W ?hh EvPgenClose] =>
        set (oc := raises W hh EvPgenClose) end.
      exists k, oc. split; [exact Hr|]. split.
      * unfold append_events. rewrite firstn_map, map_map, <- app_assoc. reflexivity.
      * now destruct oc.
    + rewrite (Hall eq_refl) in Hin.
      apply list_elem_of_fmap in Hin as (ev' & Hev & _). discriminate.
Qed.

Lemma write_pgen_stops_at_failed_append_witness :
  exists k oc,
    variant_rows (calldata_gt demo_obj) !! k = Some (mk_ndarray [4] [0; 1; 1; 0]%Z) /\
    (write_pgen (failing_world 3) demo_state).2 = inl (default IOFailureError oc).
Proof.
  destruct (write_pgen_stops_at_failed_append (failing_world 3) demo_state 2 2 [2]
              [(EvLog "Writing to x.pgen", None);
               (EvPgenOpen (encode_utf8 "x") 2 2 true, None);
               (EvPgenAppend (mk_ndarray [4] [0; 0; 1; 1]%Z) true, None);
               (EvPgenAppend (mk_ndarray [4] [0; 1; 1; 0]%Z) true, Some IOFailureError);
               (EvPgenClose, None)]
              (mk_ndarray [4] [0; 1; 1; 0]%Z) true IOFailureError)
    as (k & oc & Hk & _ & Hres).
  - reflexivity.
  - simpl; lia.
  - reflexivity.
  - do 3 apply list_elem_of_further. apply list_elem_of_here.
  - exists k, oc. split; [exact Hk|exact Hres].
Defined.

(** ** What the encoder can tell apart *)

Lemma variant_rows_congruent gt1 gt2 :
  shape gt1 = shape gt2 -> map Np.wrap32 (Np.values gt1) = map Np.wrap32 (Np.values gt2) ->
  variant_rows gt1 = variant_rows gt2.
Proof.
  intros Hs Hd. unfold variant_rows, variant_row, row_len. rewrite Hs.
  apply map_ext. intros i. f_equal.
  now rewrite <- firstn_map, <- skipn_map, Hd, skipn_map, firstn_map.
Qed.

(** X8: [write_pgen] hands over the low 32 bits of the call values and
    nothing else: two integer arrays of the same shape whose values agree
    modulo 2^32 lead to the same calls, with the same outcomes, and to the
    same result. *)
Theorem write_pgen_congruent_calldata W w1 w2 h :
  let gt1 := calldata_gt (snpobj w1) in
  let gt2 := calldata_gt (snpobj w2) in
  filename w1 = filename w2 -> shape gt1 = shape gt2 ->
  map Np.wrap32 (Np.values gt1) = map Np.wrap32 (Np.values gt2) ->
  trace (write_pgen W (mkState w1 h)).1 = trace (write_pgen W (mkState w2 h)).1 /\
  (write_pgen W (mkState w1 h)).2 = (write_pgen W (mkState w2 h)).2.
Proof.
  intros gt1 gt2 Hf Hs Hd.
  assert (is_phased gt1 = is_phased gt2) as Hp by (unfold is_phased, Np.ndim; now rewrite Hs).
  assert (append_events gt1 = append_events gt2) as Ha.
  { unfold append_events. now rewrite Hp, (variant_rows_congruent gt1 gt2 Hs Hd). }
  destruct (shape gt1) as [|v [|n al]] eqn:E1.
  - rewrite !write_pgen_bad_rank; simpl; fold gt1 gt2; unfold Np.ndim;
      rewrite <- ?Hs, ?E1; simpl; try lia. now rewrite Hf.
  - rewrite !write_pgen_bad_rank; simpl; fold gt1 gt2; unfold Np.ndim;
      rewrite <- ?Hs, ?E1; simpl; try lia. now rewrite Hf.
  - destruct (le_gt_dec (length al) 1) as [Hal|Hal].
    + rewrite (write_pgen_run W (mkState w1 h) v n al E1 Hal).
      rewrite (write_pgen_run W (mkState w2 h) v n al (eq_sym Hs) Hal).
      simpl. fold gt1 gt2. now rewrite Hf, Hp, Ha.
    + rewrite !write_pgen_bad_rank; simpl; fold gt1 gt2; unfold Np.ndim;
        rewrite <- ?Hs, ?E1; simpl; try lia. now rewrite Hf.
Qed.

Lemma write_pgen_congruent_calldata_witness :
  Np.values (calldata_gt wide_obj) = [4294967296%Z] /\
  trace (write_pgen (RefEncoder.world RefEncoder.hardcall) wide_state).1 =
  trace (write_pgen (RefEncoder.world RefEncoder.hardcall)
           (mkState (init (bare_obj (mk_ndarray [1; 1] [i64 0])) "x") [])).1.
Proof.
  split; [reflexivity|].
  apply (write_pgen_congruent_calldata (RefEncoder.world RefEncoder.hardcall)
           (init wide_obj "x") (init (bare_obj (mk_ndarray [1; 1] [i64 0])) "x") []);
    reflexivity.
Defined.

(** ** The layout of a phased row *)

Lemma item3_lookup {A} (a : ndarray A) v n k i s al :
  Np.wf a -> shape a = [v; n; k] -> i < v -> s < n -> al < k ->
  item3 a i s al = data a !! (i * (n * (k * 1)) + (s * k + al)) /\
  is_Some (item3 a i s al).
Proof.
  unfold Np.wf. intros Hw Hs Hi Hsn Hal. rewrite Hs in Hw. simpl in Hw.
  assert (item3 a i s al = data a !! (i * (n * (k * 1)) + (s * k + al))) as E.
  { unfold item3, Np.getitem. rewrite Hs. simpl.
    replace (Nat.ltb i v) with true by (symmetry; apply Nat.ltb_lt; lia). simpl.
    replace (Nat.ltb s n) with true by (symmetry; apply Nat.ltb_lt; lia). simpl.
    replace (Nat.ltb al k) with true by (symmetry; apply Nat.ltb_lt; lia). simpl.
    rewrite !Nat.mul_1_r.
    rewrite head_lookup. rewrite lookup_take_lt by lia. rewrite lookup_drop.
    rewrite lookup_take_lt by lia. rewrite lookup_drop.
    rewrite lookup_take_lt by nia. rewrite lookup_drop.
    f_equal. lia. }
  split; [exact E|]. rewrite E. apply lookup_lt_is_Some. rewrite Hw.
  rewrite !Nat.mul_1_r.
  assert (s * k + al < n * k) by nia.
  assert (i * (n * k) + n * k <= v * (n * k)) by nia. lia.
Qed.

(** X9: flattening a phased array makes one row of a variant and keeps the
    alleles of a sample next to each other: in any run, the [i]-th array
    handed to the binary writer is one-dimensional with
    [num_samples * num_alleles] values and holds at position
    [s * num_alleles + a] the call value [calldata_gt[i, s, a]], converted
    to 32 bits. *)
Theorem write_pgen_phased_row_layout W st v n k i s a new row :
  let gt := calldata_gt (snpobj (self st)) in
  Np.wf gt -> shape gt = [v; n; k] -> s < n -> a < k ->
  trace (write_pgen W st).1 = trace st ++ new ->
  appended new !! i = Some row ->
  i < v /\
  shape row = [n * k] /\
  exists x, item3 gt i s a = Some x /\
            data row !! (s * k + a) = Some (Np.wrap32 (Np.to_Z x)).
Proof.
  intros gt Hw Hs Hsn Ha Ht Hrow.
  destruct (write_pgen_appended_prefix W st v n [k] Hs) as (new' & Ht' & Hp); [simpl; lia|].
  rewrite Ht in Ht'. apply app_inv_head in Ht'. subst new'.
  pose proof (prefix_lookup_Some _ _ _ _ Hrow Hp) as Hvr.
  pose proof (lookup_lt_Some _ _ _ Hvr) as Hi.
  rewrite variant_rows_length in Hi. fold gt in Hi. rewrite Hs in Hi. simpl in Hi.
  unfold variant_rows in Hvr. fold gt in Hvr. rewrite Hs in Hvr. simpl in Hvr.
  rewrite list_lookup_fmap, lookup_seq_lt in Hvr by done. simpl in Hvr.
  injection Hvr as <-.
  split; [exact Hi|]. split.
  { rewrite (variant_row_shape gt v [n; k] i Hs). simpl. now rewrite Nat.mul_1_r. }
  destruct (item3_lookup gt v n k i s a Hw Hs Hi Hsn Ha) as (E & [x Hx]).
  exists x. split; [exact Hx|].
  rewrite (variant_row_lookup gt v [n; k] i (s * k + a) Hw Hs Hi) by (simpl; nia).
  unfold Np.values. rewrite list_lookup_fmap. simpl. rewrite <- E, Hx. reflexivity.
Qed.

Lemma write_pgen_phased_row_layout_witness :
  shape (mk_ndarray [4] [0; 1; 1; 0]%Z) = [2 * 2] /\
  exists x, item3 (calldata_gt demo_obj) 1 1 0 = Some x /\
            [0; 1; 1; 0]%Z !! 2 = Some (Np.wrap32 (Np.to_Z x)).
Proof.
  destruct (write_pgen_phased_row_layout (RefEncoder.world RefEncoder.hardcall) demo_state
              2 2 2 1 1 0
              [(EvLog "Writing to x.pgen", None);
               (EvPgenOpen (encode_utf8 "x") 2 2 true, None);
               (EvPgenAppend (mk_ndarray [4] [0; 0; 1; 1]%Z) true, None);
               (EvPgenAppend (mk_ndarray [4] [0; 1; 1; 0]%Z) true, None);
               (EvPgenClose, None)]
              (mk_ndarray [4] [0; 1; 1; 0]%Z))
    as (_ & Hsh & Hx); [reflexivity|reflexivity|lia|lia|reflexivity|reflexivity|].
  split; [exact Hsh|exact Hx].
Defined.

(** ** The whole write, end to end *)

(** X10: call data of a rank other than two or three never reaches the
    binary writer, and [write] cannot succeed on it: if a sidecar raises,
    that exception ends the write; otherwise both sidecars are written and
    the write then fails with [ValueError] on unpacking the shape. *)
Theorem write_never_opens_writer_on_bad_rank W vzs st :
  let gt := calldata_gt (snpobj (self st)) in
  let side := (write_pvar W vzs ;; write_psam W) (settled st) in
  Np.ndim gt <> 2 -> Np.ndim gt <> 3 ->
  exists new,
    trace (write W vzs st).1 = trace st ++ new /\
    Forall (fun c => is_pgen c.1 = false) new /\
    (write W vzs st).2 = match side.2 with inl e => inl e | inr _ => inl ValueError end.
Proof.
  intros gt side H2 H3.
  destruct (write_phases W vzs st) as (Hself & (calls1 & Ht & HF) & Hrest).
  fold side in Hself, Ht, Hrest.
  assert (Forall (fun c : call_record => is_pgen c.1 = false) calls1) as HF'.
  { eapply Forall_impl; [exact HF|]. intros [ev o] Hc. unfold sidecar_call in Hc.
    now destruct ev. }
  destruct side.2 as [e|[]].
  - rewrite Hrest. exists calls1. auto.
  - destruct Hrest as (-> & _).
    rewrite write_pgen_bad_rank by (rewrite Hself; exact H2 || exact H3).
    simpl. eexists. rewrite Ht, <- app_assoc. split; [reflexivity|]. split; [|reflexivity].
    apply Forall_app. split; [exact HF'|]. now repeat constructor.
Qed.

Lemma write_never_opens_writer_on_bad_rank_witness :
  (run (write quiet_world false)
       (mkSNPObject (mk_ndarray [2] [i64 0; i64 1]) (StrArray ["s1"; "s2"])
          (StrArray ["1"]) (IntArray [i64 100]) (StrArray ["rs1"]) (StrArray ["A"])
          (mk_ndarray [1; 1] ["G"]) (BoolArray [true])) "x").2 = inl ValueError.
Proof.
  destruct (write_never_opens_writer_on_bad_rank quiet_world false
              (mkState (init (mkSNPObject (mk_ndarray [2] [i64 0; i64 1]) (StrArray ["s1"; "s2"])
                 (StrArray ["1"]) (IntArray [i64 100]) (StrArray ["rs1"]) (StrArray ["A"])
                 (mk_ndarray [1; 1] ["G"]) (BoolArray [true])) "x") []))
    as (new & _ & _ & Hres); [discriminate|discriminate|].
  exact Hres.
Defined.

(** X11: in a world where no call raises, [write] on a consistent variant
    table and call data of rank two or three succeeds, and its calls are, in
    this order: the variant file, the sample file, then the binary writer
    opened on the settled base, one append per row of the call data, and the
    close.  The number of variant lines, of sample lines and of appended
    rows are each taken from their own array; none is checked against the
    others. *)
Theorem write_succeeds_in_order W st n k v m al :
  let w := self (settled st) in
  let obj := snpobj (self st) in
  let gt := calldata_gt obj in
  let base := to_string (filename w) in
  let phased := Nat.eqb (Np.ndim gt) 3 in
  variant_table obj n k -> shape gt = v :: m :: al -> length al <= 1 ->
  (forall h ev, raises W h ev = None) ->
  write W false st =
    (mkState w
       (trace st ++
        [(EvLog ("Writing to " +:+ base +:+ ".pvar"), None);
         (EvWriteText (base +:+ ".pvar")
            (Tsv.text ["#CHROM"; "POS"; "ID"; "REF"; "ALT"; "FILTER"]
                      (map (pvar_fields obj) (seq 0 n))), None);
         (EvLog ("Writing " +:+ base +:+ ".psam"), None);
         (EvWriteText (base +:+ ".psam")
            (Tsv.text ["IID"; "SEX"]
                      (map (fun sample => [Tsv.field sample; "NA"]) (cells (samples obj)))),
          None);
         (EvLog ("Writing to " +:+ base +:+ ".pgen"), None);
         (EvPgenOpen (encode_utf8 base) m v phased, None)]
        ++ map (fun r => (EvPgenAppend r phased, None)) (variant_rows gt)
        ++ [(EvPgenClose, None)]),
     inr tt).
Proof.
  intros w obj gt base phased Ht Hs Hal Hq.
  rewrite write_unfold. unfold mbind at 1, M_bind at 1.
  rewrite write_pvar_unfold. cbv zeta.
  change (snpobj (self (settled st))) with obj. rewrite (pvar_csv_table obj n k Ht).
  unfold call at 1. rewrite Hq. cbv beta iota zeta.
  unfold mbind at 1, M_bind at 1.
  unfold write_psam, mbind, M_bind, get_self, log_info, lift. cbv beta iota zeta.
  change (snpobj (self (settled st))) with obj.
  cbn [self trace snpobj]. rewrite psam_frame, psam_csv.
  unfold call at 1. rewrite Hq. cbv beta iota zeta.
  match goal with |- context [write_pgen W ?s] =>
    rewrite (write_pgen_run W s v m al Hs Hal) end.
  unfold pgen_session. rewrite Hq.
  rewrite calls_quiet by (intros; apply Hq). rewrite Hq. simpl.
  fold w obj gt base. unfold append_events. rewrite map_map.
  fold (is_phased gt). rewrite <- !app_assoc. reflexivity.
Qed.

Lemma write_succeeds_in_order_witness :
  (run (write quiet_world false) demo_obj "x.pgen").2 = inr tt.
Proof.
  unfold run.
  rewrite (write_succeeds_in_order quiet_world (mkState (init demo_obj "x.pgen") []) 2 3 2 2 [2]).
  - reflexivity.
  - unfold variant_table. simpl. repeat split; try reflexivity. lia.
  - reflexivity.
  - simpl; lia.
  - reflexivity.
Defined.

(** X12: whatever the call data holds and whatever the world does, every
    value [write_pgen] hands to the binary writer lies in the signed 32-bit
    range. *)
Theorem write_pgen_appends_int32_only W st v n al :
  let gt := calldata_gt (snpobj (self st)) in
  shape gt = v :: n :: al -> length al <= 1 ->
  exists new,
    trace (write_pgen W st).1 = trace st ++ new /\
    Forall (fun c => match c.1 with
                     | EvPgenAppend r _ => Forall int32_range (data r)
                     | _ => True
                     end) new.
Proof.
  intros gt Hs Hal. rewrite (write_pgen_run W st v n al Hs Hal). fold gt. simpl.
  eexists. rewrite <- app_assoc. split; [reflexivity|].
  constructor; [done|]. apply pgen_session_Forall; try done.
  intros ev o Hev. unfold append_events, variant_rows in Hev.
  apply list_elem_of_fmap in Hev as (r & -> & Hr).
  apply list_elem_of_fmap in Hr as (i & -> & _). simpl.
  unfold variant_row. apply Forall_forall. intros z Hz.
  apply list_elem_of_fmap in Hz as (y & -> & _). apply wrap32_range.
Qed.

Lemma write_pgen_appends_int32_only_witness :
  exists new,
    trace (write_pgen quiet_world wide_state).1 = trace wide_state ++ new /\
    Forall (fun c => match c.1 with
                     | EvPgenAppend r _ => Forall int32_range (data r)
                     | _ => True
                     end) new.
Proof.
  apply (write_pgen_appends_int32_only quiet_world wide_state 1 1 []);
    [reflexivity|simpl; lia].
Defined.
